(** * Reporting and fix application of the stylelint fork: a shallow embedding

    The development embeds three source files:

    - [lib/utils/report.mjs]: [report], [buildWarningMessage], [printfLike]
      and the local [applyFix];
    - [lib/utils/fix.mjs]: [applyFix] and [addFixerData];
    - the fix-application pass: [applyFixes] and [offsetDisabledRanges].

    JavaScript numbers that hold line numbers, columns and offsets are
    integers and are embedded as [Z].  [undefined] is [None] of an option
    type.  Objects used as dictionaries are finite maps ([gmap]) when only
    lookups and order-insensitive traversals are made, and association lists
    when the order of [Object.entries] is observable.  Exceptions are an
    explicit outcome that carries the state reached when they were raised.
    The callbacks that the code calls (severity functions, message functions,
    fix callbacks) are functions of the embedding: the calls covered are
    those in which the callbacks return. *)

From Stdlib Require Import ZArith String Ascii List Bool Lia.
From Stdlib Require Import Numbers.DecimalString.
From stdpp Require Import base option list gmap strings.

Open Scope Z_scope.

(** ** JavaScript values that the code inspects *)

(** Message arguments: the rules pass strings and integers. *)
Inductive jsarg :=
| AStr (s : string)
| ANum (z : Z).

(** [String(arg)]. *)
Definition String_ (arg : jsarg) : string :=
  match arg with
  | AStr s => s
  | ANum z => NilZero.string_of_int (Z.to_int z)
  end.

(** What a severity expression can evaluate to. *)
Inductive jsval :=
| VUndefined
| VNull
| VString (s : string).

Definition truthy (v : jsval) : bool :=
  match v with
  | VString s => negb (String.eqb s "")
  | _ => false
  end.

(** [a || b] on severity values. *)
Definition js_or (a b : jsval) : jsval := if truthy a then a else b.

(** [v !== 'error'], [v === 'error']. *)
Definition is_string (v : jsval) (s : string) : bool :=
  match v with
  | VString s' => String.eqb s' s
  | _ => false
  end.

(** Truthiness of a number: [0] is falsy. *)
Definition truthyNum (z : Z) : bool := negb (z =? 0).

(** Truthiness of an optional number: [undefined] and [0] are falsy. *)
Definition truthyOptNum (o : option Z) : bool :=
  match o with
  | Some z => truthyNum z
  | None => false
  end.

(** ** [String.prototype.replace] with the pattern [/%[ds]/]

    The pattern has no flags and no capture groups: the leftmost occurrence
    of a percent sign followed by [d] or [s] is replaced, once. *)

Definition is_percent (c : ascii) : bool := Ascii.eqb c "%".
Definition is_ds (c : ascii) : bool := Ascii.eqb c "d" || Ascii.eqb c "s".

(** The pattern matches at the very beginning of [s]. *)
Definition startsWithPlaceholder (s : string) : bool :=
  match s with
  | String p (String d _) => is_percent p && is_ds d
  | _ => false
  end.

Definition prepend (c : ascii) (m : string * string * string)
  : string * string * string :=
  let '(before, matched, after) := m in (String c before, matched, after).

(** Leftmost match: the text before it, the matched text, the text after. *)
Fixpoint regexSearch (s : string) : option (string * string * string) :=
  match s with
  | EmptyString => None
  | String c rest =>
      if startsWithPlaceholder s
      then match rest with
           | String d after =>
               Some (EmptyString, String c (String d EmptyString), after)
           | EmptyString => None
           end
      else option_map (prepend c) (regexSearch rest)
  end.

(** [GetSubstitution] of ECMAScript for a pattern without capture groups:
    in the replacement text [$$] stands for a dollar sign, [$&] for the
    matched text, [$`] for the text before the match and [$'] for the text
    after it; every other character, and a dollar sign followed by anything
    else, is literal. *)
Fixpoint getSubstitution (matched before after replacement : string) : string :=
  match replacement with
  | EmptyString => EmptyString
  | String c rest =>
      if Ascii.eqb c "$" then
        match rest with
        | String d rest' =>
            if Ascii.eqb d "$" then
              String "$" (getSubstitution matched before after rest')
            else if Ascii.eqb d "&" then
              matched +:+ getSubstitution matched before after rest'
            else if Ascii.eqb d "`" then
              before +:+ getSubstitution matched before after rest'
            else if Ascii.eqb d "'" then
              after +:+ getSubstitution matched before after rest'
            else String c (getSubstitution matched before after rest)
        | EmptyString => String c EmptyString
        end
      else String c (getSubstitution matched before after rest)
  end.

(** [result.replace(/%[ds]/, replacement)]. *)
Definition replace (result replacement : string) : string :=
  match regexSearch result with
  | Some (before, matched, after) =>
      before +:+ getSubstitution matched before after replacement +:+ after
  | None => result
  end.

(** ** [printfLike] and [buildWarningMessage] (report.mjs) *)

(** [args.reduce((result, arg) => result.replace(/%[ds]/, String(arg)), format)] *)
Definition printfLike (format : string) (args : list jsarg) : string :=
  fold_left (fun result arg => replace result (String_ arg)) args format.

(** A rule message is a string or a function of the message arguments. *)
Inductive RuleMessage :=
| MsgString (s : string)
| MsgFun (f : list jsarg -> string).

Definition buildWarningMessage (message : RuleMessage)
    (messageArgs : option (list jsarg)) : string :=
  let args := default [] messageArgs in
  match message with
  | MsgString s => printfLike s args
  | MsgFun f => f args
  end.

(** The reading of the formatting rule as one pass over the format:
    placeholders are met from left to right, each takes the next argument
    as it is, and the placeholders left when the arguments run out stay. *)
Fixpoint formatSpec (format : string) (args : list string) : string :=
  match format with
  | EmptyString => EmptyString
  | String c rest =>
      if startsWithPlaceholder format
      then match args, rest with
           | a :: args', String _ after => a +:+ formatSpec after args'
           | _, _ => format
           end
      else String c (formatSpec rest args)
  end.

(** ** Positions, ranges and disabled ranges *)

Record Position := { line : Z; column : Z }.

Record Range := { range_start : Position; range_end : Position }.

(** A disabled range: [end_] absent means the range is open, [rules] absent
    means the range is not restricted to a list of rules. *)
Record DisabledRange := {
  start : Z;
  end_ : option Z;
  rules : option (list string)
}.

(** Modelled from the spec: the constant [RULE_NAME_ALL] of
    [lib/constants.mjs], the wildcard key of the range index.  The two
    fix paths read the same key as the property [all]. *)
Definition RULE_NAME_ALL : string := "all".

(** [cb] of fix.mjs and of the fix-application pass: the pair of bounds. *)
Definition Tuple : Type := Z * option Z.

Definition cb (object : DisabledRange) : Tuple := (start object, end_ object).

(** A PostCSS node, as far as the code uses it: its [rangeBy] method, applied
    to the optional offsets [index] and [endIndex]. *)
Record Node := { rangeBy : option Z -> option Z -> Range }.

(** The configuration fields that are read; flags are kept as booleans. *)
Record Config := {
  config_fix : bool;
  defaultSeverity : jsval;
  ignoreDisables : bool
}.

(** [{}], the default of [config] in the destructuring of [report]. *)
Definition emptyConfig : Config :=
  {| config_fix := false; defaultSeverity := VUndefined; ignoreDisables := false |}.

(** [config?.ignoreDisables] *)
Definition optIgnoreDisables (config : option Config) : bool :=
  match config with
  | Some c => ignoreDisables c
  | None => false
  end.

(** A severity option is a value or a function of the message arguments. *)
Inductive RuleSeverity :=
| SevValue (v : jsval)
| SevFun (f : list jsarg -> jsval).

Definition truthySeverity (o : RuleSeverity) : bool :=
  match o with
  | SevValue v => truthy v
  | SevFun _ => true
  end.

Definition truthyMessage (m : RuleMessage) : bool :=
  match m with
  | MsgString s => negb (String.eqb s "")
  | MsgFun _ => true
  end.

(** An entry of [disabledWarnings]. *)
Record DisabledWarning := { dw_rule : string; dw_line : Z }.

(** An entry of [fixersData] as report.mjs and fix.mjs write it. *)
Record FixerData := { fd_range : Range; fixed : bool }.

(** The properties handed to [result.warn], with the message text. *)
Record Warning := {
  text : string;
  w_severity : jsval;
  w_rule : string;
  w_node : option Node;
  w_start : option Position;
  w_index : option Z;
  w_end : option Position;
  w_endIndex : option Z;
  w_word : option string
}.

(** [result.stylelint] *)
Record Stylelint := {
  config : option Config;
  ruleSeverities : gmap string RuleSeverity;
  quiet : bool;
  disabledRanges : option (gmap string (list DisabledRange));
  disabledWarnings : option (list DisabledWarning);
  stylelintError : bool;
  stylelintWarning : bool;
  customMessages : option (gmap string RuleMessage);
  fixersData : gmap string (list FixerData)
}.

(** The PostCSS result: [warn] appends to [messages]. *)
Record PostcssResult := {
  stylelint : Stylelint;
  messages : list Warning
}.

Definition warn (warningMessage : string -> Warning) (text : string)
    (result : PostcssResult) : PostcssResult :=
  {| stylelint := stylelint result;
     messages := messages result ++ [warningMessage text] |}.

Definition withStylelint (s : Stylelint) (result : PostcssResult) : PostcssResult :=
  {| stylelint := s; messages := messages result |}.

(** ** Outcomes *)

Inductive Error :=
| Error_ (message : string)   (* [throw new Error(message)] *)
| TypeError.                  (* a property read on [undefined] *)

(** A call returns or throws; in both cases the state it reached is kept. *)
Inductive Outcome (S : Type) :=
| Return (s : S)
| Throw (e : Error) (s : S).

Arguments Return {S} s.
Arguments Throw {S} e s.

Definition finalState {S : Type} (o : Outcome S) : S :=
  match o with
  | Return s => s
  | Throw _ s => s
  end.

Definition returned {S : Type} (o : Outcome S) : bool :=
  match o with
  | Return _ => true
  | Throw _ _ => false
  end.

Definition dquote : string := String (ascii_of_nat 34) EmptyString.

(** ** report.mjs *)

Module ReportMjs.
Section WithWorld.

(** The document the fix callbacks edit. *)
Context {W : Type}.

(** The argument of [report], without [result], which is the state. *)
Record Problem := {
  p_index : option Z;
  p_endIndex : option Z;
  p_start : option Position;
  p_end : option Position;
  p_fix : option (W -> W);
  p_line : option Z;
  p_message : RuleMessage;
  p_messageArgs : option (list jsarg);
  p_node : option Node;
  p_ruleName : string;
  p_severity : RuleSeverity;
  p_word : option string
}.

(** Modelled from the spec: [isNumber] of [lib/utils/validateTypes.mjs];
    an offset is an optional number, and [isNumber] holds of a present one. *)
Definition isNumber (v : option Z) : bool := bool_decide (is_Some v).

Definition fixRangeMessage (ruleName : string) : string :=
  "The fix callback for rule " +:+ dquote +:+ ruleName +:+ dquote +:+
  " requires either index/endIndex or start/end to be passed to the `report()` function.".

Definition noLineMessage (ruleName : string) : string :=
  "The " +:+ dquote +:+ ruleName +:+ dquote +:+
  " rule failed to pass either a node or a line number to the `report()` function.".

(** [range.start.line >= start && (!end || range.start.line <= end)] *)
Definition isInRange (range : Range) (dr : DisabledRange) : bool :=
  (start dr <=? line (range_start range)) &&
  match end_ dr with
  | Some e => negb (truthyNum e) || (line (range_start range) <=? e)
  | None => true
  end.

(** The local [applyFix] of report.mjs. *)
Definition applyFix (fix_ : W -> W) (result : PostcssResult) (ruleName : string)
    (range : Range) (w : W) : Outcome (PostcssResult * W) :=
  let s := stylelint result in
  match disabledRanges s with
  | None => Throw TypeError (result, w)
  | Some disabledRanges_ =>
      let all := default [] (disabledRanges_ !! "all") in
      let ranges := default all (disabledRanges_ !! ruleName) in
      let mayFix :=
        optIgnoreDisables (config s)
        || (length ranges =? 0)%nat
        || negb (existsb (isInRange range) ranges) in
      let array := default [] (fixersData s !! ruleName) in
      let s' :=
        {| config := config s;
           ruleSeverities := ruleSeverities s;
           quiet := quiet s;
           disabledRanges := disabledRanges s;
           disabledWarnings := disabledWarnings s;
           stylelintError := stylelintError s;
           stylelintWarning := stylelintWarning s;
           customMessages := customMessages s;
           fixersData :=
             <[ruleName := array ++ [{| fd_range := range; fixed := mayFix |}]]>
               (fixersData s) |} in
      Return (withStylelint s' result, if mayFix then fix_ w else w)
  end.

(** [disabledWarnings.push({ rule, line })], creating the list when absent. *)
Definition pushDisabledWarning (ruleName : string) (startLine : Z)
    (s : Stylelint) : Stylelint :=
  {| config := config s;
     ruleSeverities := ruleSeverities s;
     quiet := quiet s;
     disabledRanges := disabledRanges s;
     disabledWarnings :=
       Some (default [] (disabledWarnings s)
             ++ [{| dw_rule := ruleName; dw_line := startLine |}]);
     stylelintError := stylelintError s;
     stylelintWarning := stylelintWarning s;
     customMessages := customMessages s;
     fixersData := fixersData s |}.

(** The condition of the loop over the disabled ranges. *)
Definition rangeMatches (ruleName : string) (startLine : Z) (range : DisabledRange) : bool :=
  (start range <=? startLine)
  && match end_ range with
     | None => true
     | Some e => startLine <=? e
     end
  && match rules range with
     | None => true
     | Some rs => bool_decide (ruleName ∈ rs)
     end.

(** How the loop [for (const range of ranges)] is left. *)
Inductive LoopExit := Returned | FellThrough.

(** The loop: at the first matching range a disabled warning is pushed; then
    [report] returns when disables are not ignored, and the loop is left by
    [break] when they are. *)
Fixpoint scanRanges (ruleName : string) (startLine : Z) (ignoreDisables_ : bool)
    (ranges : list DisabledRange) (s : Stylelint) : LoopExit * Stylelint :=
  match ranges with
  | [] => (FellThrough, s)
  | range :: rest =>
      if rangeMatches ruleName startLine range then
        let s' := pushDisabledWarning ruleName startLine s in
        if negb ignoreDisables_ then (Returned, s') else (FellThrough, s')
      else scanRanges ruleName startLine ignoreDisables_ rest s
  end.

(** [disabledRanges[ruleName] ?? disabledRanges[RULE_NAME_ALL] ?? []] *)
Definition reportRanges (disabledRanges_ : gmap string (list DisabledRange))
    (ruleName : string) : list DisabledRange :=
  default (default [] (disabledRanges_ !! RULE_NAME_ALL)) (disabledRanges_ !! ruleName).

(** The severity computed at lines 56 to 61. *)
Definition ruleSeverityOf (problem : Problem) (s : Stylelint) : jsval :=
  let config_ := default emptyConfig (config s) in
  let ruleSeverityOption :=
    if truthySeverity (p_severity problem) then p_severity problem
    else default (SevValue VUndefined) (ruleSeverities s !! p_ruleName problem) in
  let defaultSeverity_ := js_or (defaultSeverity config_) (VString "error") in
  match ruleSeverityOption with
  | SevFun f => js_or (f (default [] (p_messageArgs problem))) defaultSeverity_
  | SevValue v => v
  end.

(** [line || reportRange.start?.line] *)
Definition startLineOf (problem : Problem) : option Z :=
  let reportRange :=
    option_map (fun node => rangeBy node (p_index problem) (p_endIndex problem))
               (p_node problem) in
  if truthyOptNum (p_line problem) then p_line problem
  else option_map (fun r => line (range_start r)) reportRange.

Definition setFlags (ruleSeverity : jsval) (s : Stylelint) : Stylelint :=
  {| config := config s;
     ruleSeverities := ruleSeverities s;
     quiet := quiet s;
     disabledRanges := disabledRanges s;
     disabledWarnings := disabledWarnings s;
     stylelintError :=
       if negb (stylelintError s) && is_string ruleSeverity "error"
       then true else stylelintError s;
     stylelintWarning :=
       if negb (stylelintWarning s) && is_string ruleSeverity "warning"
       then true else stylelintWarning s;
     customMessages := customMessages s;
     fixersData := fixersData s |}.

(** [warningProperties], waiting for the message text. *)
Definition warningProperties (problem : Problem) (ruleSeverity : jsval)
    (text_ : string) : Warning :=
  {| text := text_;
     w_severity := ruleSeverity;
     w_rule := p_ruleName problem;
     w_node := p_node problem;
     w_start := p_start problem;
     w_index := match p_start problem with
                | Some _ => None
                | None => p_index problem
                end;
     w_end := p_end problem;
     w_endIndex := match p_end problem with
                   | Some _ => None
                   | None => p_endIndex problem
                   end;
     w_word := match p_word problem with
               | Some wd => if String.eqb wd "" then None else Some wd
               | None => None
               end |}.

(** [(customMessages && customMessages[ruleName]) || message] *)
Definition messageOf (problem : Problem) (s : Stylelint) : RuleMessage :=
  match customMessages s ≫= (fun cm => cm !! p_ruleName problem) with
  | Some m => if truthyMessage m then m else p_message problem
  | None => p_message problem
  end.

(** Lines 56 to 155: what [report] does when it does not defer to a fix. *)
Definition reportDiagnostic (problem : Problem) (result : PostcssResult) (w : W)
    : Outcome (PostcssResult * W) :=
  let s := stylelint result in
  let config_ := default emptyConfig (config s) in
  let ruleName := p_ruleName problem in
  let ruleSeverity := ruleSeverityOf problem s in
  if quiet s && negb (is_string ruleSeverity "error") then Return (result, w)
  else
    match startLineOf problem with
    | None => Throw (Error_ (noLineMessage ruleName)) (result, w)
    | Some startLine =>
        if negb (truthyNum startLine)
        then Throw (Error_ (noLineMessage ruleName)) (result, w)
        else
          let '(exit, s1) :=
            match disabledRanges s with
            | Some disabledRanges_ =>
                scanRanges ruleName startLine (ignoreDisables config_)
                           (reportRanges disabledRanges_ ruleName) s
            | None => (FellThrough, s)
            end in
          match exit with
          | Returned => Return (withStylelint s1 result, w)
          | FellThrough =>
              let s2 := setFlags ruleSeverity s1 in
              let warningMessage :=
                buildWarningMessage (messageOf problem s2) (p_messageArgs problem) in
              Return (warn (warningProperties problem ruleSeverity) warningMessage
                           (withStylelint s2 result), w)
          end
    end.

Definition hasRange (problem : Problem) : bool :=
  match p_end problem with
  | Some e => truthyNum (column e) && bool_decide (is_Some (p_start problem))
  | None => false
  end.

Definition hasIndexes (problem : Problem) : bool :=
  isNumber (p_index problem) && isNumber (p_endIndex problem).

Definition hasRangeData (problem : Problem) : bool :=
  hasRange problem || hasIndexes problem.

Definition hasFix (problem : Problem) : bool := bool_decide (is_Some (p_fix problem)).

(** [hasRange ? { start, end } : node.rangeBy({ index, endIndex })];
    [None] stands for the [TypeError] of a call on an absent node. *)
Definition fixRange (problem : Problem) : option Range :=
  if hasRange problem then
    match p_start problem, p_end problem with
    | Some s, Some e => Some {| range_start := s; range_end := e |}
    | _, _ => None
    end
  else
    option_map (fun node => rangeBy node (p_index problem) (p_endIndex problem))
               (p_node problem).

Definition report (problem : Problem) (result : PostcssResult) (w : W)
    : Outcome (PostcssResult * W) :=
  let config_ := default emptyConfig (config (stylelint result)) in
  let hasFixData := config_fix config_ && hasRangeData problem in
  if hasFix problem && negb (hasRangeData problem)
  then Throw (Error_ (fixRangeMessage (p_ruleName problem))) (result, w)
  else if hasFixData then
    match fixRange problem with
    | None => Throw TypeError (result, w)
    | Some range =>
        match p_fix problem with
        | Some fix_ => applyFix fix_ result (p_ruleName problem) range w
        | None => reportDiagnostic problem result w
        end
    end
  else reportDiagnostic problem result w.

End WithWorld.
Arguments Problem : clear implicits.
End ReportMjs.

(** ** fix.mjs *)

Module FixMjs.
Section WithWorld.

Context {W : Type}.

(** [range.start.line >= start && (!end || range.start.line <= end)]
    on a pair of bounds. *)
Definition isInRange (range : Range) (t : Tuple) : bool :=
  (t.1 <=? line (range_start range)) &&
  match t.2 with
  | Some e => negb (truthyNum e) || (line (range_start range) <=? e)
  | None => true
  end.

Definition addFixerData (result : PostcssResult) (name : string) (data : FixerData)
    : PostcssResult :=
  let s := stylelint result in
  let list_ := fixersData s !! name in
  withStylelint
    {| config := config s;
       ruleSeverities := ruleSeverities s;
       quiet := quiet s;
       disabledRanges := disabledRanges s;
       disabledWarnings := disabledWarnings s;
       stylelintError := stylelintError s;
       stylelintWarning := stylelintWarning s;
       customMessages := customMessages s;
       fixersData :=
         match list_ with
         | None => <[name := [data]]> (fixersData s)
         | Some l => <[name := l ++ [data]]> (fixersData s)
         end |}
    result.

Definition applyFix (callback : W -> W) (result : PostcssResult) (ruleName : string)
    (range : Range) (w : W) : Outcome (PostcssResult * W) :=
  let s := stylelint result in
  match disabledRanges s with
  | None => Throw TypeError (result, w)
  | Some disabledRanges_ =>
      let all := default [] (disabledRanges_ !! "all") in
      let ruleRanges := default [] (option_map (map cb) (disabledRanges_ !! ruleName)) in
      let ranges := map cb all ++ ruleRanges in
      let mayFix :=
        optIgnoreDisables (config s)
        || (length ranges =? 0)%nat
        || negb (existsb (isInRange range) ranges) in
      let w' := if mayFix then callback w else w in
      Return (addFixerData result ruleName {| fd_range := range; fixed := mayFix |}, w')
  end.

End WithWorld.
End FixMjs.

(** ** The fix-application pass

    The disabled ranges are objects that [offsetDisabledRanges] updates in
    place.  They live in a store, a list addressed by position, and the range
    index holds their addresses: an object listed twice is one object.  An
    address beyond the store holds no object; reads and updates skip it.
    The callbacks edit the document only. *)

Module ApplyFixes.

Definition loc : Type := nat.

Section WithWorld.

Context {W Args : Type}.

(** An entry of [fixersData] as the pass reads it; the callback edits the
    document and returns the new source range. *)
Record FixEntry := {
  source : Range;
  callback : Args -> W -> W * Range;
  args : Args;
  unfixable : bool
}.

(** The fields of [result.stylelint] that the pass reads. *)
Record Stylelint := {
  disabledRanges : option (gmap string (list loc));
  fixersData : list (string * list FixEntry);
  config : option Config
}.

(** The objects an array of the index holds. *)
Definition deref (h : list DisabledRange) (locs : list loc) : list DisabledRange :=
  omap (fun l => h !! l) locs.

(** The body of the callback of [element.forEach]. *)
Definition offsetRange (endLine diff : Z) (disabledRange : DisabledRange) : DisabledRange :=
  let r1 :=
    if endLine <? start disabledRange
    then {| start := start disabledRange + diff;
            end_ := end_ disabledRange;
            rules := rules disabledRange |}
    else disabledRange in
  match end_ r1 with
  | Some e =>
      if truthyNum e && (endLine <? e)
      then {| start := start r1; end_ := Some (e + diff); rules := rules r1 |}
      else r1
  | None => r1
  end.

(** [Object.values(disabledRanges)]: the arrays of the index.  The finite
    map lists them in its own order; the store reached does not depend on it
    (lemma [offsetDisabledRanges_any_order]). *)
Definition Object_values (disabledRanges_ : gmap string (list loc)) : list (list loc) :=
  (map_to_list disabledRanges_).*2.

Definition offsetDisabledRanges (disabledRanges_ : gmap string (list loc))
    (endLine diff : Z) (h : list DisabledRange) : list DisabledRange :=
  foldl (fun h1 element =>
           foldl (fun h2 l => alter (offsetRange endLine diff) l h2) h1 element)
        h (Object_values disabledRanges_).

(** [source.start.line >= start && (!end || source.start.line <= end)] *)
Definition isInRange (source_ : Range) (t : Tuple) : bool :=
  (t.1 <=? line (range_start source_)) &&
  match t.2 with
  | Some e => negb (truthyNum e) || (line (range_start source_) <=? e)
  | None => true
  end.

Definition mayFix (config_ : option Config) (ranges : list Tuple) (entry : FixEntry) : bool :=
  negb (unfixable entry)
  && (optIgnoreDisables config_
      || (length ranges =? 0)%nat
      || negb (existsb (isInRange (source entry)) ranges)).

(** The body of the callback of [array.forEach]. *)
Definition applyEntry (config_ : option Config) (disabledRanges_ : gmap string (list loc))
    (ranges : list Tuple) (st : list DisabledRange * W) (entry : FixEntry)
    : list DisabledRange * W :=
  if mayFix config_ ranges entry then
    let '(w', newSource) := callback entry (args entry) st.2 in
    let diff := line (range_end newSource) - line (range_end (source entry)) in
    if negb (optIgnoreDisables config_) && truthyNum diff
    then (offsetDisabledRanges disabledRanges_ (line (range_end (source entry))) diff st.1, w')
    else (st.1, w')
  else st.

(** [all.map(cb).concat(ruleRanges)], read when the rule is reached. *)
Definition rangesOf (disabledRanges_ : gmap string (list loc)) (h : list DisabledRange)
    (ruleName : string) : list Tuple :=
  let all := default [] (disabledRanges_ !! "all") in
  let ruleRanges :=
    default [] (option_map (fun locs => map cb (deref h locs)) (disabledRanges_ !! ruleName)) in
  map cb (deref h all) ++ ruleRanges.

(** The body of the callback of [rules.forEach]. *)
Definition applyRule (config_ : option Config) (disabledRanges_ : gmap string (list loc))
    (st : list DisabledRange * W) (rule : string * list FixEntry)
    : list DisabledRange * W :=
  let ranges := rangesOf disabledRanges_ st.1 rule.1 in
  foldl (applyEntry config_ disabledRanges_ ranges) st rule.2.

Definition applyFixes (s : Stylelint) (h : list DisabledRange) (w : W)
    : Outcome (list DisabledRange * W) :=
  match disabledRanges s with
  | None => Throw TypeError (h, w)
  | Some disabledRanges_ =>
      let rules_ := fixersData s in
      Return (foldl (applyRule (config s) disabledRanges_) (h, w) rules_)
  end.

(** The index as the read-only paths see it: arrays of range values. *)
Definition view (disabledRanges_ : gmap string (list loc)) (h : list DisabledRange)
    : gmap string (list DisabledRange) :=
  deref h <$> disabledRanges_.

End WithWorld.
Arguments FixEntry : clear implicits.
Arguments Stylelint : clear implicits.
End ApplyFixes.

(** ** Side conditions of the formatting theorem *)

Fixpoint hasChar (c : ascii) (s : string) : bool :=
  match s with
  | EmptyString => false
  | String x rest => Ascii.eqb x c || hasChar c rest
  end.

(** The text of the argument has no percent sign and no dollar sign. *)
Definition cleanArg (arg : jsarg) : bool :=
  negb (hasChar "%" (String_ arg)) && negb (hasChar "$" (String_ arg)).

(** No placeholder of the format comes right after a percent sign. *)
Fixpoint formatOk (s : string) : bool :=
  match s with
  | EmptyString => true
  | String c rest => negb (is_percent c && startsWithPlaceholder rest) && formatOk rest
  end.

(** A text [p] is inert when a search through [p] followed by anything finds
    what the search through the rest finds. *)
Definition shift (p : string) (m : string * string * string) : string * string * string :=
  let '(before, matched, after) := m in (p +:+ before, matched, after).

Definition inert (p : string) : Prop :=
  forall x, regexSearch (p +:+ x) = option_map (shift p) (regexSearch x).

(** ** Observations on a call and the vocabulary of the statements *)

Section Observations.

Context {W : Type}.

(** The diagnostics a call added to [result.messages]. *)
Definition emitted (result : PostcssResult) (o : Outcome (PostcssResult * W))
    : list Warning :=
  drop (length (messages result)) (messages (finalState o).1).

(** The entries a call added to [disabledWarnings]. *)
Definition logged (result : PostcssResult) (o : Outcome (PostcssResult * W))
    : list DisabledWarning :=
  drop (length (default [] (disabledWarnings (stylelint result))))
       (default [] (disabledWarnings (stylelint (finalState o).1))).

(** The session flags after a call. *)
Definition flags (o : Outcome (PostcssResult * W)) : bool * bool :=
  (stylelintError (stylelint (finalState o).1),
   stylelintWarning (stylelint (finalState o).1)).

(** The guards of lines 44 to 54 of report.mjs let the problem through to
    line 56: a fix callback comes with range data; and when fixing is enabled
    and range data is present, the range computed at line 51 does not fail
    and there is no fix callback to defer to. *)
Definition passesFixGuards (problem : ReportMjs.Problem W) (result : PostcssResult) : bool :=
  negb (ReportMjs.hasFix problem && negb (ReportMjs.hasRangeData problem))
  && (negb (config_fix (default emptyConfig (config (stylelint result)))
            && ReportMjs.hasRangeData problem)
      || (bool_decide (is_Some (ReportMjs.fixRange problem))
          && negb (ReportMjs.hasFix problem))).

(** The quiet-mode test of line 64 lets the problem through. *)
Definition passesQuiet (problem : ReportMjs.Problem W) (result : PostcssResult) : bool :=
  negb (quiet (stylelint result)
        && negb (is_string (ReportMjs.ruleSeverityOf problem (stylelint result)) "error")).

(** The line of the problem is resolvable: [startLine] is a non-zero number. *)
Definition resolvedLine (problem : ReportMjs.Problem W) : option Z :=
  match ReportMjs.startLineOf problem with
  | Some l => if truthyNum l then Some l else None
  | None => None
  end.

(** The diagnostic that [report] emits for a problem. *)
Definition diagnosticOf (problem : ReportMjs.Problem W) (s : Stylelint) : Warning :=
  ReportMjs.warningProperties problem (ReportMjs.ruleSeverityOf problem s)
    (buildWarningMessage (ReportMjs.messageOf problem s) (ReportMjs.p_messageArgs problem)).

End Observations.

(** A line lies in a disabled range: [start <= line], and [line <= end] when
    the range has an end. *)
Definition covers (l : Z) (r : DisabledRange) : bool :=
  (start r <=? l) && match end_ r with
                     | None => true
                     | Some e => l <=? e
                     end.

(** [rangesFor] as the specification words it: the rule-specific list and
    the wildcard list, both. *)
Definition rangesFor (disabledRanges_ : gmap string (list DisabledRange))
    (ruleId : string) : list DisabledRange :=
  default [] (disabledRanges_ !! ruleId) ++ default [] (disabledRanges_ !! RULE_NAME_ALL).

(** The ranges of a list that the loop of [report] would match. *)
Definition matching (ruleName : string) (startLine : Z) (ranges : list DisabledRange)
    : list DisabledRange :=
  filter (fun r => ReportMjs.rangeMatches ruleName startLine r = true) ranges.

(** The list of disabled ranges that [report] walks through. *)
Definition consulted (result : PostcssResult) (ruleName : string) : list DisabledRange :=
  match disabledRanges (stylelint result) with
  | Some disabledRanges_ => ReportMjs.reportRanges disabledRanges_ ruleName
  | None => []
  end.

(** The flags as lines 115 to 121 leave them for a severity. *)
Definition flagsAfter (ruleSeverity : jsval) (s : Stylelint) : bool * bool :=
  (stylelintError s || is_string ruleSeverity "error",
   stylelintWarning s || is_string ruleSeverity "warning").

(** ** Sample sessions

    The document is a counter of the edits made: a fix callback adds one. *)

Definition range_1_5 : DisabledRange := {| start := 1; end_ := Some 5; rules := None |}.

Definition range_2_9 : DisabledRange := {| start := 2; end_ := Some 9; rules := None |}.

Definition range_bar_1_5 : DisabledRange :=
  {| start := 1; end_ := Some 5; rules := Some ["bar"] |}.

(** A session in which rule [foo] has the severity [warning]. *)
Definition session (config_ : option Config) (quiet_ : bool)
    (disabledRanges_ : option (gmap string (list DisabledRange))) : PostcssResult :=
  {| stylelint :=
       {| config := config_;
          ruleSeverities := {[ "foo" := SevValue (VString "warning") ]};
          quiet := quiet_;
          disabledRanges := disabledRanges_;
          disabledWarnings := None;
          stylelintError := false;
          stylelintWarning := false;
          customMessages := None;
          fixersData := ∅ |};
     messages := [] |}.

(** A problem of a rule at an optional line, without node, positions or fix. *)
Definition problemAt (ruleName : string) (line_ : option Z) : ReportMjs.Problem nat :=
  {| ReportMjs.p_index := None;
     ReportMjs.p_endIndex := None;
     ReportMjs.p_start := None;
     ReportMjs.p_end := None;
     ReportMjs.p_fix := None;
     ReportMjs.p_line := line_;
     ReportMjs.p_message := MsgString "Unexpected %s";
     ReportMjs.p_messageArgs := Some [AStr "x"];
     ReportMjs.p_node := None;
     ReportMjs.p_ruleName := ruleName;
     ReportMjs.p_severity := SevValue VUndefined;
     ReportMjs.p_word := None |}.

(** The same problem with a fix callback and still no range data. *)
Definition problemWithFix (ruleName : string) (line_ : option Z) : ReportMjs.Problem nat :=
  {| ReportMjs.p_index := None;
     ReportMjs.p_endIndex := None;
     ReportMjs.p_start := None;
     ReportMjs.p_end := None;
     ReportMjs.p_fix := Some S;
     ReportMjs.p_line := line_;
     ReportMjs.p_message := MsgString "Unexpected %s";
     ReportMjs.p_messageArgs := Some [AStr "x"];
     ReportMjs.p_node := None;
     ReportMjs.p_ruleName := ruleName;
     ReportMjs.p_severity := SevValue VUndefined;
     ReportMjs.p_word := None |}.

Definition ignoringDisables : Config :=
  {| config_fix := false; defaultSeverity := VUndefined; ignoreDisables := true |}.

Definition defaultingToWarning : Config :=
  {| config_fix := false; defaultSeverity := VString "warning"; ignoreDisables := false |}.

(** The wildcard list covers line 3 and rule [foo] has a list of its own. *)
Definition indexAllAndFoo : gmap string (list DisabledRange) :=
  {[ "all" := [range_1_5]; "foo" := [] ]}.

(** Two ranges of rule [foo] cover line 3. *)
Definition indexFooTwice : gmap string (list DisabledRange) :=
  {[ "foo" := [range_1_5; range_2_9] ]}.

(** The only range of the wildcard list is restricted to rule [bar]. *)
Definition indexBarOnly : gmap string (list DisabledRange) :=
  {[ "all" := [range_bar_1_5] ]}.

Definition position (l c : Z) : Position := {| line := l; column := c |}.

Definition rangeAtLine (l : Z) : Range :=
  {| range_start := position l 1; range_end := position l 9 |}.

(** The addresses held by the range index, array after array. *)
Definition indexed (disabledRanges_ : gmap string (list ApplyFixes.loc)) : list ApplyFixes.loc :=
  concat (ApplyFixes.Object_values disabledRanges_).

(** ** Sample fix passes *)

(** A fix at a line that adds [added] lines to the document. *)
Definition fixAdding (l added : Z) (unfixable_ : bool) : ApplyFixes.FixEntry nat unit :=
  {| ApplyFixes.source := rangeAtLine l;
     ApplyFixes.callback := fun _ w => (S w, rangeAtLine (l + added));
     ApplyFixes.args := tt;
     ApplyFixes.unfixable := unfixable_ |}.

(** Rule [bar] is disabled from line 5 to line 15; a fix of rule [foo] at
    line 10 adds two lines. *)
Definition storeBar : list DisabledRange :=
  [{| start := 5; end_ := Some 15; rules := None |}].

Definition passFooOverBar : ApplyFixes.Stylelint nat unit :=
  {| ApplyFixes.disabledRanges := Some {[ "bar" := [0%nat] ]};
     ApplyFixes.fixersData := [("foo", [fixAdding 10 2 false])];
     ApplyFixes.config := None |}.

(** Three ranges: before, around and after line 10. *)
Definition storeThree : list DisabledRange :=
  [{| start := 1; end_ := Some 4; rules := None |};
   {| start := 5; end_ := Some 10; rules := None |};
   {| start := 12; end_ := None; rules := None |}].

Definition indexThree : gmap string (list ApplyFixes.loc) :=
  {[ "all" := [0%nat]; "bar" := [1%nat; 2%nat] ]}.

(** The wildcard list holds the range at address 0 and rule [foo] has an
    empty list of its own: the index [indexAllAndFoo] seen through a store. *)
Definition storeAll : list DisabledRange := [range_1_5].

Definition indexAllAndFooLocs : gmap string (list ApplyFixes.loc) :=
  {[ "all" := [0%nat]; "foo" := [] ]}.

(** A pass in which no entry is eligible: one fix of rule [foo] lies in the
    wildcard range, the other is marked unfixable. *)
Definition passNoneEligible : ApplyFixes.Stylelint nat unit :=
  {| ApplyFixes.disabledRanges := Some indexAllAndFooLocs;
     ApplyFixes.fixersData := [("foo", [fixAdding 3 2 false; fixAdding 8 1 true])];
     ApplyFixes.config := None |}.

(** ** Further vocabulary: errors, index-free sessions, placeholders *)

Section MoreObservations.

Context {W : Type}.


End MoreObservations.

(** The session without its index of disabled ranges. *)
Definition withoutDisabledRanges (result : PostcssResult) : PostcssResult :=
  let s := stylelint result in
  withStylelint
    {| config := config s;
       ruleSeverities := ruleSeverities s;
       quiet := quiet s;
       disabledRanges := None;
       disabledWarnings := disabledWarnings s;
       stylelintError := stylelintError s;
       stylelintWarning := stylelintWarning s;
       customMessages := customMessages s;
       fixersData := fixersData s |}
    result.

(** The placeholders of a format, met from left to right. *)
Fixpoint countPlaceholders (format : string) : nat :=
  match format with
  | EmptyString => O
  | String c rest =>
      if startsWithPlaceholder format
      then match rest with
           | String _ after => S (countPlaceholders after)
           | EmptyString => O
           end
      else countPlaceholders rest
  end.

(** The fields that [report] only reads are the same in two sessions. *)
Definition sameSettings (s1 s2 : Stylelint) : Prop :=
  config s1 = config s2 /\ ruleSeverities s1 = ruleSeverities s2
  /\ quiet s1 = quiet s2 /\ disabledRanges s1 = disabledRanges s2
  /\ customMessages s1 = customMessages s2.

(** ** More samples *)

Definition fixing : Config :=
  {| config_fix := true; defaultSeverity := VUndefined; ignoreDisables := false |}.

(** A problem of a rule with a fix callback and the range of a line. *)
Definition problemDeferred (ruleName : string) (l : Z) : ReportMjs.Problem nat :=
  {| ReportMjs.p_index := None;
     ReportMjs.p_endIndex := None;
     ReportMjs.p_start := Some (position l 1);
     ReportMjs.p_end := Some (position l 9);
     ReportMjs.p_fix := Some S;
     ReportMjs.p_line := None;
     ReportMjs.p_message := MsgString "Unexpected %s";
     ReportMjs.p_messageArgs := Some [AStr "x"];
     ReportMjs.p_node := None;
     ReportMjs.p_ruleName := ruleName;
     ReportMjs.p_severity := SevValue VUndefined;
     ReportMjs.p_word := None |}.

(** The list of rule [foo] repeats the range of the wildcard list. *)
Definition indexFooRepeats : gmap string (list DisabledRange) :=
  {[ "all" := [range_1_5]; "foo" := [range_1_5; range_2_9] ]}.

(** The pass [passNoneEligible] with disables ignored. *)
Definition passIgnoring : ApplyFixes.Stylelint nat unit :=
  {| ApplyFixes.disabledRanges := Some indexAllAndFooLocs;
     ApplyFixes.fixersData := [("foo", [fixAdding 3 2 false; fixAdding 8 1 true])];
     ApplyFixes.config := Some ignoringDisables |}.

(** * Message formatting *)

#[local] Arguments append !_ _ / : simpl nomatch.

Lemma append_assoc (a b c : string) : (a +:+ b) +:+ c = a +:+ (b +:+ c).
Proof. induction a as [|x a IH]; simpl; [reflexivity | now rewrite IH]. Qed.

Lemma append_empty_r (a : string) : a +:+ "" = a.
Proof. induction a as [|x a IH]; simpl; [reflexivity | now rewrite IH]. Qed.

Lemma getSubstitution_no_dollar (matched before after r : string) :
  hasChar "$" r = false -> getSubstitution matched before after r = r.
Proof.
  induction r as [|c r IH]; simpl; [reflexivity|].
  intros H. apply orb_false_iff in H as [Hc Hr].
  rewrite Hc. now rewrite IH.
Qed.

Lemma regexSearch_split (s b m a : string) :
  regexSearch s = Some (b, m, a) ->
  s = b +:+ m +:+ a /\ startsWithPlaceholder (m +:+ a) = true.
Proof.
  revert b. induction s as [|c rest IH]; intros b; simpl; [discriminate|].
  destruct rest as [|d after].
  - simpl. discriminate.
  - destruct (is_percent c && is_ds d) eqn:E.
    + intros [= <- <- <-]. simpl. now rewrite E.
    + destruct (regexSearch (String d after)) as [[[b' m'] a']|] eqn:Es;
        simpl; [|discriminate].
      intros [= <- <- <-].
      destruct (IH b' eq_refl) as [-> Hm]. now split.
Qed.

Lemma regexSearch_empty_before (s m a : string) :
  regexSearch s = Some (""%string, m, a) -> startsWithPlaceholder s = true.
Proof.
  intros H. destruct (regexSearch_split _ _ _ _ H) as [-> Hm]. exact Hm.
Qed.

Lemma inert_empty : inert "".
Proof.
  intros x. simpl. destruct (regexSearch x) as [[[b m] a]|]; reflexivity.
Qed.

Lemma inert_app (p q : string) : inert p -> inert q -> inert (p +:+ q).
Proof.
  intros Hp Hq x. rewrite append_assoc, Hp, Hq.
  destruct (regexSearch x) as [[[b m] a]|]; simpl; [|reflexivity].
  now rewrite append_assoc.
Qed.

Lemma inert_cons (c : ascii) (p : string) :
  (forall x, startsWithPlaceholder (String c (p +:+ x)) = false) ->
  inert p -> inert (String c p).
Proof.
  intros Hc Hp x.
  change (String c p +:+ x) with (String c (p +:+ x)).
  cbn [regexSearch]. rewrite Hc, Hp.
  destruct (regexSearch x) as [[[b m] a]|]; reflexivity.
Qed.

Lemma inert_no_percent (a : string) : hasChar "%" a = false -> inert a.
Proof.
  induction a as [|c a IH]; simpl; intros H; [apply inert_empty|].
  apply orb_false_iff in H as [Hc Ha].
  apply inert_cons; [|auto].
  intros x. simpl. unfold is_percent.
  destruct (a +:+ x); [reflexivity|]. now rewrite Hc.
Qed.

Lemma regexSearch_before_inert (s b m a : string) :
  formatOk s = true -> regexSearch s = Some (b, m, a) -> inert b.
Proof.
  revert b. induction s as [|c rest IH]; intros b Hok; [discriminate|].
  cbn [formatOk] in Hok. apply andb_true_iff in Hok as [Hc Hok].
  cbn [regexSearch].
  destruct (startsWithPlaceholder (String c rest)) eqn:E.
  - destruct rest; [discriminate|]. intros [= <- <- <-]. apply inert_empty.
  - destruct (regexSearch rest) as [[[b' m'] a']|] eqn:Es; simpl; [|discriminate].
    intros [= <- <- <-].
    apply inert_cons; [|eauto].
    intros x. destruct b' as [|c2 b''].
    + apply regexSearch_empty_before in Es. rewrite Es, andb_true_r in Hc.
      apply negb_true_iff in Hc. simpl.
      destruct x; [reflexivity|]. now rewrite Hc.
    + destruct (regexSearch_split _ _ _ _ Es) as [-> _]. exact E.
Qed.

Lemma regexSearch_after_ok (s b m a : string) :
  formatOk s = true -> regexSearch s = Some (b, m, a) -> formatOk a = true.
Proof.
  revert b. induction s as [|c rest IH]; intros b Hok; [discriminate|].
  cbn [formatOk] in Hok. apply andb_true_iff in Hok as [Hc Hok].
  cbn [regexSearch].
  destruct (startsWithPlaceholder (String c rest)) eqn:E.
  - destruct rest as [|d after]; [discriminate|]. intros [= <- <- <-].
    cbn [formatOk] in Hok. now apply andb_true_iff in Hok as [_ Hok].
  - destruct (regexSearch rest) as [[[b' m'] a']|] eqn:Es; simpl; [|discriminate].
    intros [= <- <- <-]. eauto.
Qed.

Lemma formatSpec_nil (s : string) : formatSpec s [] = s.
Proof.
  induction s as [|c rest IH]; [reflexivity|].
  cbn [formatSpec]. destruct (startsWithPlaceholder (String c rest)); [reflexivity|].
  now rewrite IH.
Qed.

Lemma formatSpec_no_match (s : string) (l : list string) :
  regexSearch s = None -> formatSpec s l = s.
Proof.
  induction s as [|c rest IH]; [reflexivity|].
  cbn [regexSearch formatSpec].
  destruct (startsWithPlaceholder (String c rest)) eqn:E.
  - destruct rest; [discriminate E | discriminate].
  - destruct (regexSearch rest); [discriminate|]. intros _. now rewrite IH.
Qed.

Lemma formatSpec_match (s b m a x : string) (l : list string) :
  regexSearch s = Some (b, m, a) ->
  formatSpec s (x :: l) = b +:+ x +:+ formatSpec a l.
Proof.
  revert b. induction s as [|c rest IH]; intros b; [discriminate|].
  cbn [regexSearch formatSpec].
  destruct (startsWithPlaceholder (String c rest)) eqn:E.
  - destruct rest; [discriminate|]. now intros [= <- <- <-].
  - destruct (regexSearch rest) as [[[b' m'] a']|] eqn:Es; simpl; [|discriminate].
    intros [= <- <- <-]. now rewrite (IH b' eq_refl).
Qed.

Lemma printfLike_no_match (s : string) (args : list jsarg) :
  regexSearch s = None -> printfLike s args = s.
Proof.
  intros H. unfold printfLike.
  induction args as [|a args IH]; [reflexivity|].
  simpl. unfold replace at 2. now rewrite H.
Qed.

Lemma printfLike_inert_prefix (args : list jsarg) :
  forall p s : string,
    forallb cleanArg args = true -> formatOk s = true -> inert p ->
    printfLike (p +:+ s) args = p +:+ formatSpec s (map String_ args).
Proof.
  induction args as [|arg args IH]; intros p s Hargs Hok Hp.
  - simpl. now rewrite formatSpec_nil.
  - cbn [forallb] in Hargs. apply andb_true_iff in Hargs as [Harg Hargs].
    unfold cleanArg in Harg. apply andb_true_iff in Harg as [Hpc Hdl].
    apply negb_true_iff in Hpc, Hdl.
    destruct (regexSearch s) as [[[b m] a]|] eqn:Es.
    + change (printfLike (p +:+ s) (arg :: args))
        with (printfLike (replace (p +:+ s) (String_ arg)) args).
      unfold replace. rewrite Hp, Es. cbn [option_map shift].
      rewrite getSubstitution_no_dollar by exact Hdl.
      cbn [map]. rewrite (formatSpec_match _ _ _ _ _ _ Es).
      rewrite <- !append_assoc.
      rewrite (IH ((p +:+ b) +:+ String_ arg) a Hargs).
      * reflexivity.
      * eapply regexSearch_after_ok; eauto.
      * apply inert_app; [apply inert_app; [exact Hp|]|].
        -- eapply regexSearch_before_inert; eauto.
        -- now apply inert_no_percent.
    + rewrite printfLike_no_match by (rewrite Hp, Es; reflexivity).
      now rewrite formatSpec_no_match.
Qed.

Lemma printfLike_formatSpec (format : string) (args : list jsarg) :
  formatOk format = true -> forallb cleanArg args = true ->
  printfLike format args = formatSpec format (map String_ args).
Proof.
  intros Hok Hargs.
  exact (printfLike_inert_prefix args "" format Hargs Hok inert_empty).
Qed.

(** * The reporting path *)

Section ReportFacts.

Context {W : Type}.

Implicit Types (problem : ReportMjs.Problem W) (result : PostcssResult) (w : W).

Lemma hasFix_spec problem :
  ReportMjs.hasFix problem = true <-> exists f, ReportMjs.p_fix problem = Some f.
Proof. unfold ReportMjs.hasFix. now rewrite bool_decide_eq_true. Qed.

Lemma report_passesFixGuards problem result w :
  passesFixGuards problem result = true ->
  ReportMjs.report problem result w = ReportMjs.reportDiagnostic problem result w.
Proof.
  unfold passesFixGuards, ReportMjs.report. intros H.
  apply andb_true_iff in H as [Hthrow Hguard].
  apply negb_true_iff in Hthrow. rewrite Hthrow.
  destruct (config_fix _ && ReportMjs.hasRangeData problem); [|reflexivity].
  cbn [negb orb] in Hguard. apply andb_true_iff in Hguard as [Hrange Hfix].
  apply bool_decide_eq_true in Hrange as [range Hrange]. rewrite Hrange.
  apply negb_true_iff in Hfix.
  destruct (ReportMjs.p_fix problem) as [f|] eqn:Ef; [|reflexivity].
  assert (ReportMjs.hasFix problem = true) by (apply hasFix_spec; eauto).
  congruence.
Qed.

Lemma scanRanges_none ruleName l ig ranges s :
  existsb (ReportMjs.rangeMatches ruleName l) ranges = false ->
  ReportMjs.scanRanges ruleName l ig ranges s = (ReportMjs.FellThrough, s).
Proof.
  induction ranges as [|r ranges IH]; simpl; [reflexivity|].
  intros H. apply orb_false_iff in H as [Hr Hrest].
  rewrite Hr. auto.
Qed.

Lemma scanRanges_some ruleName l ig ranges s :
  existsb (ReportMjs.rangeMatches ruleName l) ranges = true ->
  ReportMjs.scanRanges ruleName l ig ranges s =
    (if ig then ReportMjs.FellThrough else ReportMjs.Returned,
     ReportMjs.pushDisabledWarning ruleName l s).
Proof.
  induction ranges as [|r ranges IH]; simpl; [discriminate|].
  destruct (ReportMjs.rangeMatches ruleName l r); [now destruct ig|].
  simpl. exact IH.
Qed.

Lemma messageOf_setFlags problem v s :
  ReportMjs.messageOf problem (ReportMjs.setFlags v s) = ReportMjs.messageOf problem s.
Proof. reflexivity. Qed.

Lemma messageOf_push problem ruleName l s :
  ReportMjs.messageOf problem (ReportMjs.pushDisabledWarning ruleName l s)
  = ReportMjs.messageOf problem s.
Proof. reflexivity. Qed.

(** What lines 56 to 155 do, by cases. *)
Lemma reportDiagnostic_quiet problem result w :
  passesQuiet problem result = false ->
  ReportMjs.reportDiagnostic problem result w = Return (result, w).
Proof.
  unfold passesQuiet, ReportMjs.reportDiagnostic. intros H.
  apply negb_false_iff in H. now rewrite H.
Qed.

Lemma reportDiagnostic_no_line problem result w :
  passesQuiet problem result = true -> resolvedLine problem = None ->
  ReportMjs.reportDiagnostic problem result w
  = Throw (Error_ (ReportMjs.noLineMessage (ReportMjs.p_ruleName problem))) (result, w).
Proof.
  unfold passesQuiet, resolvedLine, ReportMjs.reportDiagnostic. intros H Hl.
  apply negb_true_iff in H. rewrite H.
  destruct (ReportMjs.startLineOf problem) as [l|]; [|reflexivity].
  destruct (truthyNum l); [discriminate | reflexivity].
Qed.

Lemma reportDiagnostic_line problem result w l :
  passesQuiet problem result = true -> resolvedLine problem = Some l ->
  let s := stylelint result in
  let ruleName := ReportMjs.p_ruleName problem in
  let sev := ReportMjs.ruleSeverityOf problem s in
  ReportMjs.reportDiagnostic problem result w =
    if existsb (ReportMjs.rangeMatches ruleName l) (consulted result ruleName) then
      let s1 := ReportMjs.pushDisabledWarning ruleName l s in
      if ignoreDisables (default emptyConfig (config s)) then
        Return (warn (ReportMjs.warningProperties problem sev)
                     (buildWarningMessage (ReportMjs.messageOf problem s)
                                          (ReportMjs.p_messageArgs problem))
                     (withStylelint (ReportMjs.setFlags sev s1) result), w)
      else Return (withStylelint s1 result, w)
    else
      Return (warn (ReportMjs.warningProperties problem sev)
                   (buildWarningMessage (ReportMjs.messageOf problem s)
                                        (ReportMjs.p_messageArgs problem))
                   (withStylelint (ReportMjs.setFlags sev s) result), w).
Proof.
  unfold passesQuiet, resolvedLine, ReportMjs.reportDiagnostic, consulted.
  intros H Hl. cbn zeta.
  apply negb_true_iff in H. rewrite H.
  destruct (ReportMjs.startLineOf problem) as [l'|]; [|discriminate].
  destruct (truthyNum l') eqn:Et; [|discriminate].
  injection Hl as ->. cbn [negb].
  destruct (disabledRanges (stylelint result)) as [dr|].
  - destruct (existsb _ (ReportMjs.reportRanges dr _)) eqn:Ee.
    + rewrite (scanRanges_some _ _ _ _ _ Ee).
      now destruct (ignoreDisables _).
    + now rewrite (scanRanges_none _ _ _ _ _ Ee).
  - reflexivity.
Qed.

Lemma emitted_same result (o : Outcome (PostcssResult * W)) :
  messages (finalState o).1 = messages result -> emitted result o = [].
Proof. unfold emitted. intros ->. apply drop_all. Qed.

Lemma logged_same result (o : Outcome (PostcssResult * W)) :
  disabledWarnings (stylelint (finalState o).1) = disabledWarnings (stylelint result) ->
  logged result o = [].
Proof. unfold logged. intros ->. apply drop_all. Qed.

Lemma flagsAfter_setFlags v s :
  (stylelintError (ReportMjs.setFlags v s), stylelintWarning (ReportMjs.setFlags v s))
  = flagsAfter v s.
Proof.
  unfold flagsAfter. cbn.
  destruct (stylelintError s), (stylelintWarning s),
    (is_string v "error"), (is_string v "warning"); reflexivity.
Qed.

(** When the guards of lines 44 to 54 stop or defer the problem, nothing is
    emitted or logged and the flags are kept. *)
Lemma report_guards_fail problem result w :
  passesFixGuards problem result = false ->
  let o := ReportMjs.report problem result w in
  emitted result o = [] /\ logged result o = []
  /\ flags o = (stylelintError (stylelint result), stylelintWarning (stylelint result)).
Proof.
  unfold passesFixGuards, ReportMjs.report. intros H.
  destruct (ReportMjs.hasFix problem && negb (ReportMjs.hasRangeData problem));
    [repeat split; (apply emitted_same || apply logged_same); reflexivity|].
  cbn [negb andb] in H.
  destruct (config_fix _ && ReportMjs.hasRangeData problem); [|discriminate].
  cbn [negb orb] in H.
  destruct (ReportMjs.fixRange problem) as [range|];
    [|repeat split; (apply emitted_same || apply logged_same); reflexivity].
  rewrite bool_decide_eq_true_2 in H by eauto. cbn [andb] in H.
  apply negb_false_iff, hasFix_spec in H as [f ->].
  unfold ReportMjs.applyFix.
  destruct (disabledRanges (stylelint result));
    repeat split; (apply emitted_same || apply logged_same); reflexivity.
Qed.

(** The outcomes of [report], by cases on the guards, the quiet test, the
    line and the scan of the disabled ranges. *)
Lemma report_cases problem result w :
  let o := ReportMjs.report problem result w in
  let s := stylelint result in
  let ruleName := ReportMjs.p_ruleName problem in
  let sev := ReportMjs.ruleSeverityOf problem s in
  let hit l := existsb (ReportMjs.rangeMatches ruleName l) (consulted result ruleName) in
  let entry l := {| dw_rule := ruleName; dw_line := l |} in
  (passesFixGuards problem result = false
   /\ emitted result o = [] /\ logged result o = []
   /\ flags o = (stylelintError s, stylelintWarning s))
  \/ (passesFixGuards problem result = true /\ passesQuiet problem result = false
      /\ o = Return (result, w))
  \/ (passesFixGuards problem result = true /\ passesQuiet problem result = true
      /\ resolvedLine problem = None
      /\ o = Throw (Error_ (ReportMjs.noLineMessage ruleName)) (result, w))
  \/ (exists l,
        passesFixGuards problem result = true /\ passesQuiet problem result = true
        /\ resolvedLine problem = Some l /\ hit l = false
        /\ returned o = true /\ emitted result o = [diagnosticOf problem s]
        /\ logged result o = [] /\ flags o = flagsAfter sev s)
  \/ (exists l,
        passesFixGuards problem result = true /\ passesQuiet problem result = true
        /\ resolvedLine problem = Some l /\ hit l = true
        /\ ignoreDisables (default emptyConfig (config s)) = false
        /\ returned o = true /\ emitted result o = []
        /\ logged result o = [entry l]
        /\ flags o = (stylelintError s, stylelintWarning s))
  \/ (exists l,
        passesFixGuards problem result = true /\ passesQuiet problem result = true
        /\ resolvedLine problem = Some l /\ hit l = true
        /\ ignoreDisables (default emptyConfig (config s)) = true
        /\ returned o = true /\ emitted result o = [diagnosticOf problem s]
        /\ logged result o = [entry l] /\ flags o = flagsAfter sev s).
Proof.
  cbn zeta.
  destruct (passesFixGuards problem result) eqn:Hg;
    [|left; split; [reflexivity|]; now apply report_guards_fail].
  right. rewrite (report_passesFixGuards _ _ _ Hg).
  destruct (passesQuiet problem result) eqn:Hq;
    [|left; now rewrite reportDiagnostic_quiet].
  right. destruct (resolvedLine problem) as [l|] eqn:Hl;
    [|left; now rewrite reportDiagnostic_no_line].
  right. rewrite (reportDiagnostic_line _ _ _ _ Hq Hl). cbn zeta.
  destruct (existsb _ _) eqn:Hhit.
  - right. destruct (ignoreDisables _) eqn:Hig.
    + right. exists l. repeat split; try reflexivity; try assumption.
      * unfold emitted. cbn. apply drop_app_length.
      * unfold logged. cbn. apply drop_app_length.
      * unfold flags. cbn [finalState fst warn withStylelint stylelint].
        now rewrite flagsAfter_setFlags.
    + left. exists l. repeat split; try reflexivity; try assumption.
      * unfold emitted. cbn. apply drop_all.
      * unfold logged. cbn. apply drop_app_length.
  - left. exists l. repeat split; try reflexivity; try assumption.
    + unfold emitted. cbn. apply drop_app_length.
    + unfold logged. cbn. apply drop_all.
    + unfold flags. cbn [finalState fst warn withStylelint stylelint].
      now rewrite flagsAfter_setFlags.
Qed.

End ReportFacts.

(** * Claims on the reporting path *)

Section ReportClaims.

Context {W : Type}.

Implicit Types (problem : ReportMjs.Problem W) (result : PostcssResult) (w : W).

Lemma existsb_elem_of {A : Type} (f : A -> bool) (l : list A) :
  existsb f l = true <-> exists x, x ∈ l /\ f x = true.
Proof.
  rewrite existsb_exists. split; intros [x [Hx Hf]]; exists x; split; auto;
    now apply list_elem_of_In.
Qed.

Lemma rangeMatches_spec ruleName l r :
  ReportMjs.rangeMatches ruleName l r = true <->
  covers l r = true /\ (rules r = None \/ exists rs, rules r = Some rs /\ ruleName ∈ rs).
Proof.
  unfold ReportMjs.rangeMatches, covers.
  rewrite andb_true_iff. apply and_iff_compat_l.
  destruct (rules r) as [rs|].
  - rewrite bool_decide_eq_true. split.
    + intros H. right. eauto.
    + intros [H|[rs' [[= <-] H]]]; [discriminate | exact H].
  - split; auto.
Qed.

Lemma matching_nonempty ruleName l ranges :
  matching ruleName l ranges <> [] <->
  existsb (ReportMjs.rangeMatches ruleName l) ranges = true.
Proof.
  unfold matching. induction ranges as [|r ranges IH]; cbn [existsb].
  - split; [intros H; now destruct H | discriminate].
  - rewrite filter_cons. destruct (ReportMjs.rangeMatches ruleName l r) eqn:E.
    + rewrite decide_True by reflexivity. split; [reflexivity | discriminate].
    + rewrite decide_False by discriminate. exact IH.
Qed.

(** C2, amended.  When the resolved line of a reported problem matches one
    or more of the disabled ranges walked through, one suppression-log entry
    is appended, for the first match, whether disables are ignored or not:
    the loop is left at the first match and the ranges after it are not
    looked at.  With [ignoreDisables] the
    diagnostic is emitted all the same; without it no diagnostic is emitted
    and the flags are kept. *)
Theorem report_logs_first_match_once problem result w l
    (Hguards : passesFixGuards problem result = true)
    (Hquiet : passesQuiet problem result = true)
    (Hline : resolvedLine problem = Some l)
    (Hmatch : matching (ReportMjs.p_ruleName problem) l
                (consulted result (ReportMjs.p_ruleName problem)) <> []) :
  let o := ReportMjs.report problem result w in
  let s := stylelint result in
  returned o = true
  /\ logged result o = [{| dw_rule := ReportMjs.p_ruleName problem; dw_line := l |}]
  /\ (ignoreDisables (default emptyConfig (config s)) = true ->
      emitted result o = [diagnosticOf problem s])
  /\ (ignoreDisables (default emptyConfig (config s)) = false ->
      emitted result o = []
      /\ flags o = (stylelintError s, stylelintWarning s))
  /\ (forall ig before r after s0,
        existsb (ReportMjs.rangeMatches (ReportMjs.p_ruleName problem) l) before = false ->
        ReportMjs.rangeMatches (ReportMjs.p_ruleName problem) l r = true ->
        ReportMjs.scanRanges (ReportMjs.p_ruleName problem) l ig (before ++ r :: after) s0
        = ReportMjs.scanRanges (ReportMjs.p_ruleName problem) l ig (before ++ [r]) s0).
Proof.
  cbn zeta. apply matching_nonempty in Hmatch.
  assert (Hstop : forall ig before r after s0,
        existsb (ReportMjs.rangeMatches (ReportMjs.p_ruleName problem) l) before = false ->
        ReportMjs.rangeMatches (ReportMjs.p_ruleName problem) l r = true ->
        ReportMjs.scanRanges (ReportMjs.p_ruleName problem) l ig (before ++ r :: after) s0
        = ReportMjs.scanRanges (ReportMjs.p_ruleName problem) l ig (before ++ [r]) s0).
  { intros ig before r after s0 Hbefore Hr.
    induction before as [|b before IH]; cbn [app ReportMjs.scanRanges].
    - now rewrite Hr.
    - cbn [existsb] in Hbefore. apply orb_false_iff in Hbefore as [Hb Hbefore].
      rewrite Hb. auto. }
  destruct (report_cases problem result w)
    as [[Hg _]|[[_ [Hq _]]|[[_ [_ [Hl _]]]|[[l' H]|[[l' H]|[l' H]]]]]];
    try congruence.
  - destruct H as (_ & _ & Hl & Hhit & _). congruence.
  - destruct H as (_ & _ & Hl & _ & Hig & Hr & He & Hlog & Hf).
    assert (l' = l) as -> by congruence.
    repeat split; auto; congruence.
  - destruct H as (_ & _ & Hl & _ & Hig & Hr & He & Hlog & Hf).
    assert (l' = l) as -> by congruence.
    repeat split; auto; congruence.
Qed.

(** C4, amended.  The severity of an emitted diagnostic is the severity
    option resolved as follows: [problem.severity] when truthy, else the
    entry of [ruleSeverities] for the rule.  A function option is called with
    the message arguments (none when absent) and a falsy result is replaced
    by [config.defaultSeverity], or by ['error'] when that is falsy.  An
    option that is not a function is the severity as it is: without a
    severity and without an entry the severity is undefined. *)
Theorem severity_resolution problem result w :
  let s := stylelint result in
  let defaultSeverity_ :=
    js_or (defaultSeverity (default emptyConfig (config s))) (VString "error") in
  let args := default [] (ReportMjs.p_messageArgs problem) in
  let entry := ruleSeverities s !! ReportMjs.p_ruleName problem in
  (forall d, d ∈ emitted result (ReportMjs.report problem result w) ->
             w_severity d = ReportMjs.ruleSeverityOf problem s)
  /\ (forall v, ReportMjs.p_severity problem = SevValue v -> truthy v = true ->
                ReportMjs.ruleSeverityOf problem s = v)
  /\ (forall f, ReportMjs.p_severity problem = SevFun f ->
                ReportMjs.ruleSeverityOf problem s = js_or (f args) defaultSeverity_)
  /\ (truthySeverity (ReportMjs.p_severity problem) = false ->
      (forall v, entry = Some (SevValue v) -> ReportMjs.ruleSeverityOf problem s = v)
      /\ (forall f, entry = Some (SevFun f) ->
                    ReportMjs.ruleSeverityOf problem s = js_or (f args) defaultSeverity_)
      /\ (entry = None -> ReportMjs.ruleSeverityOf problem s = VUndefined)).
Proof.
  cbn zeta. split; [|split; [|split]].
  - intros d Hd.
    destruct (report_cases problem result w)
      as [[_ [He _]]|[[_ [_ Ho]]|[[_ [_ [_ Ho]]]|[[l H]|[[l H]|[l H]]]]]].
    + rewrite He in Hd. inversion Hd.
    + rewrite Ho in Hd. unfold emitted in Hd. cbn in Hd. rewrite drop_all in Hd.
      inversion Hd.
    + rewrite Ho in Hd. unfold emitted in Hd. cbn in Hd. rewrite drop_all in Hd.
      inversion Hd.
    + destruct H as (_ & _ & _ & _ & _ & He & _). rewrite He in Hd.
      apply list_elem_of_singleton in Hd as ->. reflexivity.
    + destruct H as (_ & _ & _ & _ & _ & _ & He & _). rewrite He in Hd. inversion Hd.
    + destruct H as (_ & _ & _ & _ & _ & _ & He & _). rewrite He in Hd.
      apply list_elem_of_singleton in Hd as ->. reflexivity.
  - intros v Hv Ht. unfold ReportMjs.ruleSeverityOf. rewrite Hv. cbn. now rewrite Ht.
  - intros f Hf. unfold ReportMjs.ruleSeverityOf. now rewrite Hf.
  - intros Hs. unfold ReportMjs.ruleSeverityOf. rewrite Hs.
    repeat split.
    + now intros v ->.
    + now intros f ->.
    + now intros ->.
Qed.

(** C5, amended.  For a problem without a fix callback whose line is not
    resolvable, [report] changes nothing: no diagnostic, no suppression-log
    entry, no flag.  When the guards on range data let the problem through
    and quiet mode does not drop it first, the call raises the error that
    names the rule. *)
Theorem report_unresolvable_line problem result w
    (Hfix : ReportMjs.p_fix problem = None)
    (Hline : resolvedLine problem = None) :
  let o := ReportMjs.report problem result w in
  let ruleName := ReportMjs.p_ruleName problem in
  finalState o = (result, w)
  /\ emitted result o = [] /\ logged result o = []
  /\ (passesFixGuards problem result = true -> passesQuiet problem result = true ->
      o = Throw (Error_ ("The " +:+ dquote +:+ ruleName +:+ dquote +:+
                         " rule failed to pass either a node or a line number to the `report()` function."))
                (result, w)).
Proof.
  cbn zeta.
  assert (Hstate : finalState (ReportMjs.report problem result w) = (result, w)).
  { unfold ReportMjs.report. rewrite Hfix.
    destruct (ReportMjs.hasFix problem && negb (ReportMjs.hasRangeData problem));
      [reflexivity|].
    assert (Hd : finalState (ReportMjs.reportDiagnostic problem result w) = (result, w)).
    { destruct (passesQuiet problem result) eqn:Hq.
      - now rewrite reportDiagnostic_no_line.
      - now rewrite reportDiagnostic_quiet. }
    destruct (config_fix _ && ReportMjs.hasRangeData problem); [|exact Hd].
    destruct (ReportMjs.fixRange problem); [exact Hd | reflexivity]. }
  split; [exact Hstate|]. split; [|split].
  - apply emitted_same. now rewrite Hstate.
  - apply logged_same. now rewrite Hstate.
  - intros Hg Hq. rewrite (report_passesFixGuards _ _ _ Hg).
    now rewrite reportDiagnostic_no_line.
Qed.

(** C6.  Under quiet mode, for a problem whose resolved severity is not
    ['error'], no diagnostic is emitted, no suppression-log entry is
    appended and the flags are kept.  The severity is resolved at line 56,
    past the guards on fix and range data: for every problem that reaches
    it, [report] returns with the session as it was, whatever the line and
    the disabled ranges are, since the drop comes before the line is
    resolved and before the disabled ranges are walked through. *)
Theorem report_quiet_drop problem result w
    (Hquiet : quiet (stylelint result) = true)
    (Hsev : is_string (ReportMjs.ruleSeverityOf problem (stylelint result)) "error" = false) :
  let o := ReportMjs.report problem result w in
  emitted result o = [] /\ logged result o = []
  /\ flags o = (stylelintError (stylelint result), stylelintWarning (stylelint result))
  /\ (passesFixGuards problem result = true -> o = Return (result, w)).
Proof.
  cbn zeta.
  assert (Hq : passesQuiet problem result = false).
  { unfold passesQuiet. now rewrite Hquiet, Hsev. }
  destruct (passesFixGuards problem result) eqn:Hg.
  - rewrite (report_passesFixGuards _ _ _ Hg), (reportDiagnostic_quiet _ _ _ Hq).
    repeat split; (apply emitted_same || apply logged_same); reflexivity.
  - destruct (report_guards_fail problem result w Hg) as (He & Hl & Hf).
    repeat split; auto. discriminate.
Qed.

(** C10.  On the reporting path a disabled range whose [rules] field is
    defined and does not include the name of the reported rule is as good as
    absent from the list walked through: with or without it the loop exits
    the same way with the same log.  Every suppression-log entry comes from
    a range that covers the line and whose [rules] field is undefined or
    contains the rule name; and when every range that covers the line has a
    [rules] field without the rule name, nothing is logged and the
    diagnostic is emitted. *)
Theorem report_rules_restrict_match problem result w :
  let o := ReportMjs.report problem result w in
  let s := stylelint result in
  let ruleName := ReportMjs.p_ruleName problem in
  (forall l ig before r after rs,
      rules r = Some rs -> ruleName ∉ rs ->
      ReportMjs.scanRanges ruleName l ig (before ++ r :: after) s
      = ReportMjs.scanRanges ruleName l ig (before ++ after) s)
  /\ (forall d, d ∈ logged result o ->
        exists l r,
          resolvedLine problem = Some l
          /\ d = {| dw_rule := ruleName; dw_line := l |}
          /\ r ∈ consulted result ruleName /\ covers l r = true
          /\ (rules r = None \/ exists rs, rules r = Some rs /\ ruleName ∈ rs))
  /\ (forall l,
        passesFixGuards problem result = true -> passesQuiet problem result = true ->
        resolvedLine problem = Some l ->
        (forall r, r ∈ consulted result ruleName -> covers l r = true ->
                   exists rs, rules r = Some rs /\ ruleName ∉ rs) ->
        returned o = true /\ logged result o = []
        /\ emitted result o = [diagnosticOf problem s]).
Proof.
  cbn zeta. split; [|split].
  - intros l ig before r after rs Hrs Hnot.
    assert (Hr : ReportMjs.rangeMatches (ReportMjs.p_ruleName problem) l r = false).
    { apply not_true_is_false. intros H. apply rangeMatches_spec in H as [_ [H|[rs' [H Hin]]]];
        congruence. }
    induction before as [|b before IH]; cbn [app ReportMjs.scanRanges].
    + now rewrite Hr.
    + destruct (ReportMjs.rangeMatches _ l b); [reflexivity | exact IH].
  - intros d Hd.
    destruct (report_cases problem result w)
      as [[_ [_ [Hl _]]]|[[_ [_ Ho]]|[[_ [_ [_ Ho]]]|[[l H]|[[l H]|[l H]]]]]].
    + rewrite Hl in Hd. inversion Hd.
    + rewrite Ho in Hd. unfold logged in Hd. cbn in Hd. rewrite drop_all in Hd.
      inversion Hd.
    + rewrite Ho in Hd. unfold logged in Hd. cbn in Hd. rewrite drop_all in Hd.
      inversion Hd.
    + destruct H as (_ & _ & _ & _ & _ & _ & Hl & _). rewrite Hl in Hd. inversion Hd.
    + destruct H as (_ & _ & Hl & Hhit & _ & _ & _ & Hlog & _). rewrite Hlog in Hd.
      apply list_elem_of_singleton in Hd as ->.
      apply existsb_elem_of in Hhit as [r [Hin Hr]].
      apply rangeMatches_spec in Hr as [Hc Hrules]. exists l, r. auto.
    + destruct H as (_ & _ & Hl & Hhit & _ & _ & _ & Hlog & _). rewrite Hlog in Hd.
      apply list_elem_of_singleton in Hd as ->.
      apply existsb_elem_of in Hhit as [r [Hin Hr]].
      apply rangeMatches_spec in Hr as [Hc Hrules]. exists l, r. auto.
  - intros l Hg Hq Hl Hall.
    assert (Hhit : existsb (ReportMjs.rangeMatches (ReportMjs.p_ruleName problem) l)
                     (consulted result (ReportMjs.p_ruleName problem)) = false).
    { apply not_true_is_false. intros H.
      apply existsb_elem_of in H as [r [Hin Hr]].
      apply rangeMatches_spec in Hr as [Hc Hrules].
      destruct (Hall r Hin Hc) as [rs [Hrs Hnot]].
      destruct Hrules as [H|[rs' [H Hin']]]; congruence. }
    destruct (report_cases problem result w)
      as [[Hg' _]|[[_ [Hq' _]]|[[_ [_ [Hl' _]]]|[[l' H]|[[l' H]|[l' H]]]]]];
      try congruence.
    + destruct H as (_ & _ & Hl' & _ & Hr & He & Hlog & _). auto.
    + destruct H as (_ & _ & Hl' & Hhit' & _). congruence.
    + destruct H as (_ & _ & Hl' & Hhit' & _). congruence.
Qed.

End ReportClaims.

(** * The fix-application pass *)

Section ApplyFixesFacts.

Context {W Args : Type}.

Implicit Types (entry : ApplyFixes.FixEntry W Args) (h : list DisabledRange) (w : W).
Implicit Types (dr : gmap string (list ApplyFixes.loc)).

Lemma foldl_alter_lookup {A : Type} (f : A -> A) (locs : list nat) :
  forall (xs : list A) (l : nat),
    NoDup locs ->
    foldl (fun acc i => alter f i acc) xs locs !! l
    = if decide (l ∈ locs) then f <$> xs !! l else xs !! l.
Proof.
  induction locs as [|a locs IH]; intros xs l Hnd; cbn [foldl].
  - rewrite decide_False by apply not_elem_of_nil. reflexivity.
  - apply NoDup_cons in Hnd as [Ha Hnd]. rewrite (IH _ _ Hnd).
    destruct (decide (l = a)) as [->|Hne].
    + rewrite decide_False by exact Ha.
      rewrite decide_True by apply list_elem_of_here.
      now rewrite list_lookup_alter_eq.
    + rewrite list_lookup_alter_ne by congruence.
      destruct (decide (l ∈ locs)) as [Hin|Hnin].
      * rewrite decide_True by now apply list_elem_of_further. reflexivity.
      * rewrite decide_False; [reflexivity|].
        intros H. apply elem_of_cons in H as [H|H]; congruence.
Qed.

Lemma foldl_foldl_concat {A B : Type} (g : A -> B -> A) (ll : list (list B)) :
  forall a, foldl (fun a1 element => foldl g a1 element) a ll = foldl g a (concat ll).
Proof.
  induction ll as [|x ll IH]; intros a; cbn [foldl concat]; [reflexivity|].
  now rewrite IH, foldl_app.
Qed.

Lemma offsetDisabledRanges_lookup dr endLine diff h l :
  NoDup (indexed dr) ->
  ApplyFixes.offsetDisabledRanges dr endLine diff h !! l
  = if decide (l ∈ indexed dr)
    then ApplyFixes.offsetRange endLine diff <$> h !! l
    else h !! l.
Proof.
  intros Hnd. unfold ApplyFixes.offsetDisabledRanges.
  rewrite foldl_foldl_concat. now apply foldl_alter_lookup.
Qed.

(** The arrays of the index can be walked through in any order: the store
    reached is the same.  The order of [Object.values], the order in which
    the keys were inserted, is therefore not kept in the index. *)
Lemma foldl_alter_permutation {A : Type} (f : A -> A) (locs locs' : list nat) :
  locs ≡ₚ locs' ->
  forall xs : list A,
    foldl (fun acc i => alter f i acc) xs locs = foldl (fun acc i => alter f i acc) xs locs'.
Proof.
  induction 1 as [|i locs locs' _ IH|i j locs|locs1 locs2 locs3 _ IH1 _ IH2];
    intros xs; cbn [foldl].
  - reflexivity.
  - apply IH.
  - f_equal. destruct (decide (i = j)) as [->|Hne]; [reflexivity|].
    now apply list_alter_alter_ne.
  - now rewrite IH1.
Qed.

Lemma offsetDisabledRanges_any_order dr endLine diff h (values : list (list ApplyFixes.loc)) :
  concat values ≡ₚ indexed dr ->
  foldl (fun acc element =>
           foldl (fun acc' i => alter (ApplyFixes.offsetRange endLine diff) i acc') acc element)
        h values
  = ApplyFixes.offsetDisabledRanges dr endLine diff h.
Proof.
  intros Hperm. unfold ApplyFixes.offsetDisabledRanges.
  rewrite !foldl_foldl_concat. now apply foldl_alter_permutation.
Qed.

Lemma applyEntry_skip config_ dr ranges (st : list DisabledRange * W) entry :
  ApplyFixes.mayFix config_ ranges entry = false ->
  ApplyFixes.applyEntry config_ dr ranges st entry = st.
Proof. unfold ApplyFixes.applyEntry. now intros ->. Qed.

End ApplyFixesFacts.

Section ApplyFixesClaims.

Context {W Args : Type}.

Implicit Types (entry : ApplyFixes.FixEntry W Args) (h : list DisabledRange) (w : W).
Implicit Types (dr : gmap string (list ApplyFixes.loc)).

Lemma offsetRange_fields endLine diff r :
  let r' := ApplyFixes.offsetRange endLine diff r in
  rules r' = rules r
  /\ start r' = (if endLine <? start r then start r + diff else start r)
  /\ end_ r' = match end_ r with
               | Some e => if truthyNum e && (endLine <? e) then Some (e + diff) else Some e
               | None => None
               end.
Proof.
  unfold ApplyFixes.offsetRange. cbn zeta.
  destruct (endLine <? start r); cbn [end_ start rules];
    destruct (end_ r) as [e|] eqn:Ee; try (destruct (truthyNum e && (endLine <? e)));
    cbn [end_ start rules]; rewrite ?Ee; auto.
Qed.

(** C3, amended.  When an eligible fix is executed, the callback edits the
    document; with [diff] the new end line minus the end line of the fix, the
    store is kept when [diff] is zero or disables are ignored.  Otherwise
    every range object listed once in the index is updated as follows, and
    the objects that are not listed are kept: the start moves by [diff] when
    it is after the end line of the fix and stays when it is not; the end
    moves by [diff] when it is defined, not zero and after the end line of
    the fix, and stays when it is at or before that line or undefined.  So a
    range that starts at or before the end line of the fix and ends after it
    keeps its start and has its end moved. *)
Theorem applyEntry_offsets config_ dr ranges h w entry
    (Heligible : ApplyFixes.mayFix config_ ranges entry = true) :
  let endLine := line (range_end (ApplyFixes.source entry)) in
  let edited := ApplyFixes.callback entry (ApplyFixes.args entry) w in
  let diff := line (range_end edited.2) - endLine in
  let after := ApplyFixes.applyEntry config_ dr ranges (h, w) entry in
  after.2 = edited.1
  /\ (optIgnoreDisables config_ = true \/ diff = 0 -> after.1 = h)
  /\ (optIgnoreDisables config_ = false -> diff <> 0 -> NoDup (indexed dr) ->
      forall l r, h !! l = Some r ->
        (l ∉ indexed dr -> after.1 !! l = Some r)
        /\ (l ∈ indexed dr ->
            exists r', after.1 !! l = Some r'
              /\ rules r' = rules r
              /\ (endLine < start r -> start r' = start r + diff)
              /\ (start r <= endLine -> start r' = start r)
              /\ (forall e, end_ r = Some e -> e <> 0 -> endLine < e ->
                            end_ r' = Some (e + diff))
              /\ (forall e, end_ r = Some e -> e <= endLine -> end_ r' = Some e)
              /\ (end_ r = None -> end_ r' = None))).
Proof.
  cbn zeta. unfold ApplyFixes.applyEntry. rewrite Heligible. cbn [fst snd].
  destruct (ApplyFixes.callback entry (ApplyFixes.args entry) w) as [w' newSource].
  cbn [fst snd].
  set (endLine := line (range_end (ApplyFixes.source entry))).
  set (diff := line (range_end newSource) - endLine).
  split; [|split].
  - now destruct (negb (optIgnoreDisables config_) && truthyNum diff).
  - intros [Hig|Hd].
    + now rewrite Hig.
    + rewrite Hd. cbn. now rewrite andb_false_r.
  - intros Hig Hd Hnd l r Hr.
    rewrite Hig. cbn [negb andb]. unfold truthyNum.
    rewrite (proj2 (Z.eqb_neq diff 0) Hd). cbn [negb fst].
    rewrite (offsetDisabledRanges_lookup dr endLine diff h l Hnd), Hr.
    split.
    + intros Hnot. now rewrite decide_False.
    + intros Hin. rewrite decide_True by exact Hin. cbn [fmap option_fmap option_map].
      exists (ApplyFixes.offsetRange endLine diff r).
      destruct (offsetRange_fields endLine diff r) as (Hrules & Hstart & Hend).
      split; [reflexivity|]. split; [exact Hrules|].
      split; [|split; [|split; [|split]]].
      * intros H. rewrite Hstart. now rewrite (proj2 (Z.ltb_lt _ _) H).
      * intros H. rewrite Hstart. now rewrite (proj2 (Z.ltb_ge _ _) H).
      * intros e He Hne Hlt. rewrite Hend, He. unfold truthyNum.
        now rewrite (proj2 (Z.eqb_neq e 0) Hne), (proj2 (Z.ltb_lt _ _) Hlt).
      * intros e He Hle. rewrite Hend, He.
        now rewrite (proj2 (Z.ltb_ge _ _) Hle), andb_false_r.
      * intros He. now rewrite Hend, He.
Qed.

Lemma applyRule_skip config_ dr h w (rule : string * list (ApplyFixes.FixEntry W Args)) :
  (forall entry, entry ∈ rule.2 ->
     ApplyFixes.mayFix config_ (ApplyFixes.rangesOf dr h rule.1) entry = false) ->
  ApplyFixes.applyRule config_ dr (h, w) rule = (h, w).
Proof.
  unfold ApplyFixes.applyRule. cbn [fst].
  generalize (ApplyFixes.rangesOf dr h rule.1) as ranges. intros ranges.
  induction (rule.2) as [|entry array IH]; intros Hall; cbn [foldl]; [reflexivity|].
  rewrite applyEntry_skip by (apply Hall, list_elem_of_here).
  apply IH. intros e He. apply Hall. now apply list_elem_of_further.
Qed.

(** C9.  A fix-application pass over an empty registry, or over a registry
    in which no entry is eligible against the ranges of its rule, leaves the
    store of disabled ranges, and the document, as they were. *)
Theorem applyFixes_without_eligible_fix (s : ApplyFixes.Stylelint W Args) h w :
  (ApplyFixes.fixersData s = [] -> finalState (ApplyFixes.applyFixes s h w) = (h, w))
  /\ ((forall dr rule entry,
         ApplyFixes.disabledRanges s = Some dr ->
         rule ∈ ApplyFixes.fixersData s -> entry ∈ rule.2 ->
         ApplyFixes.mayFix (ApplyFixes.config s) (ApplyFixes.rangesOf dr h rule.1) entry
         = false) ->
      finalState (ApplyFixes.applyFixes s h w) = (h, w)).
Proof.
  assert (Hgen : (forall dr rule entry,
         ApplyFixes.disabledRanges s = Some dr ->
         rule ∈ ApplyFixes.fixersData s -> entry ∈ rule.2 ->
         ApplyFixes.mayFix (ApplyFixes.config s) (ApplyFixes.rangesOf dr h rule.1) entry
         = false) ->
      finalState (ApplyFixes.applyFixes s h w) = (h, w)).
  { intros Hnone. unfold ApplyFixes.applyFixes.
    destruct (ApplyFixes.disabledRanges s) as [dr|]; [|reflexivity].
    cbn [finalState]. specialize (Hnone dr).
    induction (ApplyFixes.fixersData s) as [|rule rules_ IH]; cbn [foldl]; [reflexivity|].
    rewrite applyRule_skip.
    - apply IH. intros r e Hd Hr. apply Hnone; auto. now apply list_elem_of_further.
    - intros e He. apply Hnone; auto. apply list_elem_of_here. }
  split; [|exact Hgen].
  intros Hempty. apply Hgen. intros dr rule entry _ Hin.
  rewrite Hempty in Hin. inversion Hin.
Qed.

End ApplyFixesClaims.

(** * The lists of disabled ranges consulted on each path *)

Section PathClaims.

Context {W Args : Type}.

Lemma empty_or_none {A : Type} (f : A -> bool) (l : list A) :
  (length l =? 0)%nat || negb (existsb f l) = negb (existsb f l).
Proof. destruct l; reflexivity. Qed.

Lemma elem_of_map_cb (t : Tuple) (l : list DisabledRange) :
  t ∈ map cb l <-> exists r, r ∈ l /\ t = cb r.
Proof.
  rewrite list_elem_of_In, in_map_iff.
  split; intros [r [H1 H2]]; exists r; rewrite ?list_elem_of_In in *; auto.
Qed.

Lemma elem_of_bounds (t : Tuple) (wildcard specific : list DisabledRange) :
  t ∈ map cb wildcard ++ map cb specific <->
  exists r, r ∈ specific ++ wildcard /\ t = cb r.
Proof.
  rewrite elem_of_app, !elem_of_map_cb. split.
  - intros [[r [Hr ->]]|[r [Hr ->]]]; exists r; rewrite elem_of_app; auto.
  - intros [r [Hr ->]]. apply elem_of_app in Hr as [Hr|Hr]; eauto.
Qed.

Lemma rangesOf_view (dr : gmap string (list ApplyFixes.loc)) (h : list DisabledRange)
    (ruleName : string) (t : Tuple) :
  t ∈ ApplyFixes.rangesOf dr h ruleName <->
  exists r, r ∈ rangesFor (ApplyFixes.view dr h) ruleName /\ t = cb r.
Proof.
  unfold ApplyFixes.rangesOf, rangesFor, ApplyFixes.view, RULE_NAME_ALL.
  rewrite !lookup_fmap. cbn zeta. rewrite <- elem_of_bounds.
  destruct (dr !! ruleName) as [rl|], (dr !! "all") as [al|]; reflexivity.
Qed.

Lemma mayFix_false (config_ : option Config) (dr : gmap string (list ApplyFixes.loc))
    (h : list DisabledRange) (ruleName : string) (entry : ApplyFixes.FixEntry W Args) :
  ApplyFixes.mayFix config_ (ApplyFixes.rangesOf dr h ruleName) entry = false <->
  ApplyFixes.unfixable entry = true
  \/ (optIgnoreDisables config_ = false
      /\ exists r, r ∈ rangesFor (ApplyFixes.view dr h) ruleName
                   /\ ApplyFixes.isInRange (ApplyFixes.source entry) (cb r) = true).
Proof.
  unfold ApplyFixes.mayFix. rewrite <- orb_assoc, empty_or_none.
  rewrite andb_false_iff, negb_false_iff, orb_false_iff, negb_false_iff.
  apply or_iff_compat_l, and_iff_compat_l.
  rewrite existsb_elem_of. split.
  - intros [t [Ht Hin]]. apply rangesOf_view in Ht as [r [Hr ->]]. eauto.
  - intros [r [Hr Hin]]. exists (cb r). split; [|exact Hin].
    apply rangesOf_view. eauto.
Qed.

(** C1, amended.  On the reporting path the list walked through for a rule
    is the rule-specific list when the index has one, and the wildcard list
    only when it has none: with disables not ignored, the report of a
    problem that reaches the scan is suppressed exactly when a range of that
    list covers the line and its [rules] field is undefined or contains the
    rule.  On the fix-application path the list is the union of the wildcard
    list and the rule-specific list: an entry is not executed exactly when
    it is unfixable or, disables not being ignored, a range under either key
    contains the start line of its source. *)
Theorem suppression_lists_by_path :
  (forall (problem : ReportMjs.Problem W) (result : PostcssResult) (w : W) l dr,
      passesFixGuards problem result = true -> passesQuiet problem result = true ->
      resolvedLine problem = Some l ->
      disabledRanges (stylelint result) = Some dr ->
      ignoreDisables (default emptyConfig (config (stylelint result))) = false ->
      let ruleName := ReportMjs.p_ruleName problem in
      let suppressed := emitted result (ReportMjs.report problem result w) = [] in
      let hit ranges :=
        exists r, r ∈ ranges /\ covers l r = true
                  /\ (rules r = None \/ exists rs, rules r = Some rs /\ ruleName ∈ rs) in
      (forall listed, dr !! ruleName = Some listed -> (suppressed <-> hit listed))
      /\ (dr !! ruleName = None ->
          (suppressed <-> hit (default [] (dr !! RULE_NAME_ALL)))))
  /\ (forall (config_ : option Config) (dr : gmap string (list ApplyFixes.loc))
             (h : list DisabledRange) (ruleName : string)
             (entry : ApplyFixes.FixEntry W Args) (st : list DisabledRange * W),
        (ApplyFixes.mayFix config_ (ApplyFixes.rangesOf dr h ruleName) entry = false <->
         ApplyFixes.unfixable entry = true
         \/ (optIgnoreDisables config_ = false
             /\ exists r, r ∈ rangesFor (ApplyFixes.view dr h) ruleName
                          /\ ApplyFixes.isInRange (ApplyFixes.source entry) (cb r) = true))
        /\ (ApplyFixes.mayFix config_ (ApplyFixes.rangesOf dr h ruleName) entry = false ->
            ApplyFixes.applyEntry config_ dr (ApplyFixes.rangesOf dr h ruleName) st entry
            = st)).
Proof.
  split.
  - intros problem result w l dr Hg Hq Hl Hdr Hig. cbn zeta.
    assert (Hsup : emitted result (ReportMjs.report problem result w) = [] <->
                   existsb (ReportMjs.rangeMatches (ReportMjs.p_ruleName problem) l)
                     (consulted result (ReportMjs.p_ruleName problem)) = true).
    { destruct (report_cases problem result w)
        as [[Hg' _]|[[_ [Hq' _]]|[[_ [_ [Hl' _]]]|[[l' H]|[[l' H]|[l' H]]]]]];
        try congruence.
      - destruct H as (_ & _ & Hl' & Hhit & _ & He & _).
        assert (l' = l) as -> by congruence. rewrite He, Hhit.
        split; discriminate.
      - destruct H as (_ & _ & Hl' & Hhit & _ & _ & He & _).
        assert (l' = l) as -> by congruence. rewrite He, Hhit. split; auto.
      - destruct H as (_ & _ & _ & _ & Hig' & _). congruence. }
    assert (Hhit : forall ranges,
               existsb (ReportMjs.rangeMatches (ReportMjs.p_ruleName problem) l) ranges
               = true <->
               exists r, r ∈ ranges /\ covers l r = true
                 /\ (rules r = None
                     \/ exists rs, rules r = Some rs /\ ReportMjs.p_ruleName problem ∈ rs)).
    { intros ranges. rewrite existsb_elem_of.
      split; intros [r [Hin Hr]]; exists r; split; auto; now apply rangeMatches_spec. }
    unfold consulted, ReportMjs.reportRanges in Hsup. rewrite Hdr in Hsup.
    split.
    + intros listed Hlisted. rewrite Hlisted in Hsup. cbn [default] in Hsup.
      now rewrite Hsup, Hhit.
    + intros Hnone. rewrite Hnone in Hsup. cbn [default] in Hsup.
      now rewrite Hsup, Hhit.
  - intros config_ dr h ruleName entry st. split.
    + apply mayFix_false.
    + apply applyEntry_skip.
Qed.

(** Why the two readings can live side by side: when the list of a rule
    repeats the bounds of every range of the wildcard list, as an index
    built by copying the wildcard ranges into each new list does, the list
    that the reporting path walks through and the union contain a range
    with given bounds together. *)
Lemma fallback_agrees_with_union (dr : gmap string (list DisabledRange))
    (ruleName : string) (inside : Tuple -> bool) :
  (forall listed r,
      dr !! ruleName = Some listed -> r ∈ default [] (dr !! RULE_NAME_ALL) ->
      exists r', r' ∈ listed /\ cb r' = cb r) ->
  existsb (fun r => inside (cb r)) (ReportMjs.reportRanges dr ruleName)
  = existsb (fun r => inside (cb r)) (rangesFor dr ruleName).
Proof.
  intros Hcopy. unfold ReportMjs.reportRanges, rangesFor.
  destruct (dr !! ruleName) as [listed|] eqn:El; [|reflexivity].
  change (default (default [] (dr !! RULE_NAME_ALL)) (Some listed)) with listed.
  change (default [] (Some listed)) with listed.
  rewrite existsb_app.
  destruct (existsb (fun r => inside (cb r)) listed) eqn:E1; [reflexivity|].
  cbn [orb]. symmetry. apply not_true_is_false. intros E2.
  apply existsb_elem_of in E2 as [r [Hr Hin]].
  destruct (Hcopy listed r eq_refl Hr) as [r' [Hr' Hcb]].
  assert (existsb (fun r => inside (cb r)) listed = true); [|congruence].
  apply existsb_elem_of. exists r'. split; [exact Hr'|]. now rewrite Hcb.
Qed.

Lemma fixersData_addFixerData (result : PostcssResult) (name : string) (data : FixerData) :
  fixersData (stylelint (FixMjs.addFixerData result name data)) !! name
  = Some (default [] (fixersData (stylelint result) !! name) ++ [data]).
Proof.
  unfold FixMjs.addFixerData. cbn.
  destruct (fixersData (stylelint result) !! name); cbn; now rewrite lookup_insert_eq.
Qed.

Lemma fixMjs_ranges (dr : gmap string (list DisabledRange)) (ruleName : string) (t : Tuple) :
  t ∈ map cb (default [] (dr !! "all"))
      ++ default [] (option_map (map cb) (dr !! ruleName)) <->
  exists r, r ∈ rangesFor dr ruleName /\ t = cb r.
Proof.
  unfold rangesFor, RULE_NAME_ALL. rewrite <- elem_of_bounds.
  destruct (dr !! ruleName) as [rl|]; reflexivity.
Qed.

Lemma covers_isInRange (range : Range) (r : DisabledRange) :
  covers (line (range_start range)) r = true ->
  FixMjs.isInRange range (cb r) = true /\ ReportMjs.isInRange range r = true.
Proof.
  unfold covers, FixMjs.isInRange, ReportMjs.isInRange, cb. cbn [fst snd].
  intros H. apply andb_true_iff in H as [-> He].
  destruct (end_ r); [rewrite He, orb_true_r|]; auto.
Qed.

(** C7, amended.  [applyFix] of fix.mjs consults the wildcard list and the
    list of the rule, both; [applyFix] of report.mjs consults the list of
    the rule when the index has one and the wildcard list otherwise.  When
    the start line of the target range lies in a range of the list
    consulted and disables are not ignored, the callback is not executed
    and the attempt is recorded for the rule with [fixed: false]; when
    disables are ignored or no range of the list consulted contains the
    line, the callback runs and the attempt is recorded with [fixed: true]. *)
Theorem applyFix_disabled_ranges (callback : W -> W) (result : PostcssResult)
    (ruleName : string) (range : Range) (w : W) (dr : gmap string (list DisabledRange))
    (Hdr : disabledRanges (stylelint result) = Some dr) :
  let ig := optIgnoreDisables (config (stylelint result)) in
  let attempts := default [] (fixersData (stylelint result) !! ruleName) in
  let recorded (b : bool) (o : Outcome (PostcssResult * W)) :=
    returned o = true
    /\ fixersData (stylelint (finalState o).1) !! ruleName
       = Some (attempts ++ [{| fd_range := range; fixed := b |}]) in
  let o1 := FixMjs.applyFix callback result ruleName range w in
  let o2 := ReportMjs.applyFix callback result ruleName range w in
  (ig = false ->
   (exists r, r ∈ rangesFor dr ruleName /\ FixMjs.isInRange range (cb r) = true) ->
   recorded false o1 /\ (finalState o1).2 = w)
  /\ (ig = true
      \/ (forall r, r ∈ rangesFor dr ruleName -> FixMjs.isInRange range (cb r) = false) ->
      recorded true o1 /\ (finalState o1).2 = callback w)
  /\ (ig = false ->
      (exists r, r ∈ ReportMjs.reportRanges dr ruleName
                 /\ ReportMjs.isInRange range r = true) ->
      recorded false o2 /\ (finalState o2).2 = w)
  /\ (ig = true
      \/ (forall r, r ∈ ReportMjs.reportRanges dr ruleName ->
                    ReportMjs.isInRange range r = false) ->
      recorded true o2 /\ (finalState o2).2 = callback w)
  /\ (forall r, covers (line (range_start range)) r = true ->
                FixMjs.isInRange range (cb r) = true
                /\ ReportMjs.isInRange range r = true).
Proof.
  cbn zeta.
  set (bounds := map cb (default [] (dr !! "all"))
                 ++ default [] (option_map (map cb) (dr !! ruleName))).
  assert (H1 : forall b,
    optIgnoreDisables (config (stylelint result))
    || (length bounds =? 0)%nat || negb (existsb (FixMjs.isInRange range) bounds) = b ->
    (returned (FixMjs.applyFix callback result ruleName range w) = true
     /\ fixersData (stylelint (finalState (FixMjs.applyFix callback result ruleName range w)).1)
          !! ruleName
        = Some (default [] (fixersData (stylelint result) !! ruleName)
                ++ [{| fd_range := range; fixed := b |}]))
    /\ (finalState (FixMjs.applyFix callback result ruleName range w)).2
       = if b then callback w else w).
  { intros b Hb. unfold FixMjs.applyFix. rewrite Hdr. cbn zeta. fold bounds.
    rewrite Hb. cbn [returned finalState fst snd].
    now rewrite fixersData_addFixerData. }
  assert (H2 : forall b,
    optIgnoreDisables (config (stylelint result))
    || (length (ReportMjs.reportRanges dr ruleName) =? 0)%nat
    || negb (existsb (ReportMjs.isInRange range) (ReportMjs.reportRanges dr ruleName)) = b ->
    (returned (ReportMjs.applyFix callback result ruleName range w) = true
     /\ fixersData (stylelint (finalState (ReportMjs.applyFix callback result ruleName range w)).1)
          !! ruleName
        = Some (default [] (fixersData (stylelint result) !! ruleName)
                ++ [{| fd_range := range; fixed := b |}]))
    /\ (finalState (ReportMjs.applyFix callback result ruleName range w)).2
       = if b then callback w else w).
  { intros b Hb. unfold ReportMjs.applyFix. rewrite Hdr. cbn zeta.
    change (default (default [] (dr !! "all")) (dr !! ruleName))
      with (ReportMjs.reportRanges dr ruleName).
    rewrite Hb. cbn [returned finalState fst snd withStylelint stylelint fixersData].
    now rewrite lookup_insert_eq. }
  split; [|split; [|split; [|split]]].
  - intros Hig [r [Hr Hin]]. apply (H1 false).
    rewrite Hig, <- orb_assoc, empty_or_none. cbn [orb]. apply negb_false_iff.
    apply existsb_elem_of. exists (cb r). split; [|exact Hin].
    apply fixMjs_ranges. eauto.
  - intros H. apply (H1 true).
    rewrite <- orb_assoc, empty_or_none. destruct H as [->|Hall]; [reflexivity|].
    apply orb_true_iff. right. apply negb_true_iff, not_true_is_false.
    intros He. apply existsb_elem_of in He as [t [Ht Hin]].
    apply fixMjs_ranges in Ht as [r [Hr ->]]. rewrite (Hall r Hr) in Hin. discriminate.
  - intros Hig [r [Hr Hin]]. apply (H2 false).
    rewrite Hig, <- orb_assoc, empty_or_none. cbn [orb]. apply negb_false_iff.
    apply existsb_elem_of. eauto.
  - intros H. apply (H2 true).
    rewrite <- orb_assoc, empty_or_none. destruct H as [->|Hall]; [reflexivity|].
    apply orb_true_iff. right. apply negb_true_iff, not_true_is_false.
    intros He. apply existsb_elem_of in He as [r [Hr Hin]].
    rewrite (Hall r Hr) in Hin. discriminate.
  - intros r. apply covers_isInRange.
Qed.

End PathClaims.

(** * Message formatting: the claim *)

(** Where [printfLike] follows the formatting rule.  When the format has no
    percent sign right before a placeholder and the text of no argument has
    a percent or a dollar sign, a string message is formatted in one pass
    from left to right: each placeholder takes the next argument, and the
    placeholders left when the arguments run out stay as they are.  The
    message of the example is formatted as stated.  A function message is
    called with the message arguments, none when they are absent, and its
    result is the text.  The conditions are sufficient, not necessary. *)
Theorem buildWarningMessage_formats (format : string) (args : list jsarg)
    (Hformat : formatOk format = true)
    (Hargs : forallb cleanArg args = true) :
  buildWarningMessage (MsgString format) (Some args)
  = formatSpec format (map String_ args)
  /\ buildWarningMessage (MsgString format) None = format
  /\ buildWarningMessage (MsgString "Expected %s but found %s")
                         (Some [AStr "a"; AStr "b"])
     = "Expected a but found b"%string
  /\ buildWarningMessage (MsgString "Expected %s but found %s") (Some [AStr "a"])
     = "Expected a but found %s"%string
  /\ (forall f margs, buildWarningMessage (MsgFun f) margs = f (default [] margs)).
Proof.
  split; [|split; [|split; [|split]]]; try reflexivity.
  cbn [buildWarningMessage default]. now apply printfLike_formatSpec.
Qed.

(** * The theorems at sample inputs *)

Lemma buildWarningMessage_formats_witness :
  formatOk "Expected %s but found %d, then %s" = true
  /\ forallb cleanArg [AStr "a"; ANum 12] = true
  /\ buildWarningMessage (MsgString "Expected %s but found %d, then %s")
                         (Some [AStr "a"; ANum 12])
     = formatSpec "Expected %s but found %d, then %s" (map String_ [AStr "a"; ANum 12]).
Proof.
  assert (Hf : formatOk "Expected %s but found %d, then %s" = true) by reflexivity.
  assert (Ha : forallb cleanArg [AStr "a"; ANum 12] = true) by reflexivity.
  split; [exact Hf|]. split; [exact Ha|].
  exact (proj1 (buildWarningMessage_formats _ _ Hf Ha)).
Defined.

(** C8.  The formatting rule is that placeholders are consumed from left to
    right, one for each argument, each filled with the text of its argument.
    [printfLike] departs from it: every argument is put in place of the
    first placeholder of the text reached so far, through
    [String.prototype.replace].  So an argument whose text holds a
    placeholder is consumed by the next argument and the second placeholder
    of the format is never filled; and the dollar patterns of an argument
    are expanded, so that its text is not what fills the placeholder. *)
Lemma printfLike_argument_with_placeholder :
  printfLike "%s and %s" [AStr "%s"; AStr "b"] = "b and %s"%string
  /\ formatSpec "%s and %s" (map String_ [AStr "%s"; AStr "b"]) = "%s and b"%string
  /\ printfLike "%s and %s" [AStr "%s"; AStr "b"]
     <> formatSpec "%s and %s" (map String_ [AStr "%s"; AStr "b"])
  /\ printfLike "Unexpected %s" [AStr "$&"] = "Unexpected %s"%string
  /\ printfLike "Unexpected %s" [AStr "$$"] = "Unexpected $"%string.
Proof. repeat split; try reflexivity. vm_compute. discriminate. Qed.

(** The side condition on the format is needed: a percent sign before a
    placeholder makes a new placeholder with an argument that starts with
    [s], and the next argument fills it. *)
Example printfLike_percent_before_placeholder :
  formatOk "%%s %s" = false
  /\ printfLike "%%s %s" [AStr "s"; AStr "x"] = "x %s"%string
  /\ formatSpec "%%s %s" ["s"; "x"]%string = "%s x"%string.
Proof. repeat split; reflexivity. Qed.

Lemma report_logs_first_match_once_witness :
  let problem := problemAt "foo" (Some 3) in
  let result := session (Some ignoringDisables) false (Some indexFooTwice) in
  let o := ReportMjs.report problem result 0%nat in
  passesFixGuards problem result = true
  /\ passesQuiet problem result = true
  /\ resolvedLine problem = Some 3
  /\ matching "foo" 3 (consulted result "foo") <> []
  /\ returned o = true
  /\ logged result o = [{| dw_rule := "foo"; dw_line := 3 |}].
Proof.
  cbn zeta.
  assert (Hm : matching "foo" 3
                 (consulted (session (Some ignoringDisables) false (Some indexFooTwice)) "foo")
               <> []) by (vm_compute; discriminate).
  pose proof (report_logs_first_match_once (problemAt "foo" (Some 3))
                (session (Some ignoringDisables) false (Some indexFooTwice)) 0%nat 3
                eq_refl eq_refl eq_refl Hm) as H.
  cbn zeta in H. destruct H as (Hreturned & Hlogged & _).
  split; [reflexivity|]. split; [reflexivity|]. split; [reflexivity|].
  split; [exact Hm|]. split; [exact Hreturned | exact Hlogged].
Defined.

(** C2 as stated fails: two ranges match line 3 under [ignoreDisables] and
    one entry is logged. *)
Lemma report_ignoreDisables_logs_one_entry :
  let problem := problemAt "foo" (Some 3) in
  let result := session (Some ignoringDisables) false (Some indexFooTwice) in
  matching "foo" 3 (consulted result "foo") = [range_1_5; range_2_9]
  /\ ignoreDisables (default emptyConfig (config (stylelint result))) = true
  /\ logged result (ReportMjs.report problem result 0%nat)
     = [{| dw_rule := "foo"; dw_line := 3 |}].
Proof. repeat split; vm_compute; reflexivity. Qed.

Lemma severity_resolution_witness :
  let problem := problemAt "foo" (Some 3) in
  let result := session (Some defaultingToWarning) false None in
  truthySeverity (ReportMjs.p_severity problem) = false
  /\ ruleSeverities (stylelint result) !! "foo" = Some (SevValue (VString "warning"))
  /\ ReportMjs.ruleSeverityOf problem (stylelint result) = VString "warning".
Proof.
  cbn zeta. split; [reflexivity|]. split; [reflexivity|].
  exact (proj1 (proj2 (proj2 (proj2
           (severity_resolution (problemAt "foo" (Some 3))
              (session (Some defaultingToWarning) false None) 0%nat))) eq_refl)
           (VString "warning") eq_refl).
Defined.

(** C4 as stated fails: without a severity and without an entry of
    [ruleSeverities], the diagnostic is emitted with an undefined severity,
    not with the default severity of the configuration. *)
Lemma severity_undefined_without_entry :
  let problem := problemAt "baz" (Some 3) in
  let result := session (Some defaultingToWarning) false None in
  ReportMjs.p_severity problem = SevValue VUndefined
  /\ ruleSeverities (stylelint result) !! "baz" = None
  /\ defaultSeverity defaultingToWarning = VString "warning"
  /\ map w_severity (emitted result (ReportMjs.report problem result 0%nat)) = [VUndefined].
Proof. repeat split; vm_compute; reflexivity. Qed.

Lemma report_unresolvable_line_witness :
  let problem := problemAt "foo" None in
  let result := session None false (Some indexAllAndFoo) in
  ReportMjs.p_fix problem = None
  /\ resolvedLine problem = None
  /\ passesFixGuards problem result = true
  /\ passesQuiet problem result = true
  /\ finalState (ReportMjs.report problem result 0%nat) = (result, 0%nat)
  /\ returned (ReportMjs.report problem result 0%nat) = false.
Proof.
  cbn zeta.
  pose proof (report_unresolvable_line (problemAt "foo" None)
                (session None false (Some indexAllAndFoo)) 0%nat eq_refl eq_refl) as H.
  cbn zeta in H. destruct H as (Hstate & _ & _ & Hthrow).
  split; [reflexivity|]. split; [reflexivity|]. split; [reflexivity|].
  split; [reflexivity|]. split; [exact Hstate|].
  now rewrite (Hthrow eq_refl eq_refl).
Defined.

(** C5 as stated fails: in quiet mode a problem of severity [warning]
    without line and without node is dropped, and no error is raised. *)
Lemma report_quiet_returns_without_line :
  let problem := problemAt "foo" None in
  let result := session None true None in
  ReportMjs.p_fix problem = None
  /\ ReportMjs.p_line problem = None /\ ReportMjs.p_node problem = None
  /\ ReportMjs.report problem result 0%nat = Return (result, 0%nat).
Proof. repeat split; vm_compute; reflexivity. Qed.

Lemma report_quiet_drop_witness :
  let problem := problemAt "foo" (Some 3) in
  let result := session None true (Some indexAllAndFoo) in
  quiet (stylelint result) = true
  /\ is_string (ReportMjs.ruleSeverityOf problem (stylelint result)) "error" = false
  /\ ReportMjs.report problem result 0%nat = Return (result, 0%nat).
Proof.
  cbn zeta. split; [reflexivity|]. split; [reflexivity|].
  exact (proj2 (proj2 (proj2
           (report_quiet_drop (problemAt "foo" (Some 3))
              (session None true (Some indexAllAndFoo)) 0%nat eq_refl eq_refl)))
           eq_refl).
Defined.

(** The guard of line 44 comes before the severity and the quiet flag are
    read: a problem that carries a fix callback without range data is
    refused in quiet mode as it is otherwise. *)
Lemma report_quiet_fix_without_range_throws :
  let problem := problemWithFix "foo" (Some 3) in
  let result := session None true None in
  quiet (stylelint result) = true
  /\ ReportMjs.ruleSeverityOf problem (stylelint result) = VString "warning"
  /\ ReportMjs.report problem result 0%nat
     = Throw (Error_ (ReportMjs.fixRangeMessage "foo")) (result, 0%nat)
  /\ returned (ReportMjs.report problem result 0%nat) = false.
Proof. repeat split; vm_compute; reflexivity. Qed.

Lemma report_rules_restrict_match_witness :
  let problem := problemAt "foo" (Some 3) in
  let result := session None false (Some indexBarOnly) in
  let o := ReportMjs.report problem result 0%nat in
  consulted result "foo" = [range_bar_1_5]
  /\ covers 3 range_bar_1_5 = true
  /\ returned o = true /\ logged result o = []
  /\ emitted result o = [diagnosticOf problem (stylelint result)].
Proof.
  cbn zeta. split; [reflexivity|]. split; [reflexivity|].
  apply (proj2 (proj2
           (report_rules_restrict_match (problemAt "foo" (Some 3))
              (session None false (Some indexBarOnly)) 0%nat))
           3 eq_refl eq_refl eq_refl).
  intros r Hr _. change (consulted _ _) with [range_bar_1_5] in Hr.
  apply list_elem_of_singleton in Hr as ->.
  exists ["bar"]. split; [reflexivity|].
  intros H. apply list_elem_of_singleton in H. discriminate.
Defined.

Lemma applyEntry_offsets_witness :
  let entry := fixAdding 10 2 false in
  let after := ApplyFixes.applyEntry None indexThree [] (storeThree, 0%nat) entry in
  ApplyFixes.mayFix None [] entry = true
  /\ NoDup (indexed indexThree)
  /\ after.2 = 1%nat
  /\ exists r', after.1 !! 2%nat = Some r' /\ start r' = 12 + 2 /\ end_ r' = None.
Proof.
  cbn zeta.
  assert (Hnd : NoDup (indexed indexThree)).
  { change (indexed indexThree) with [0%nat; 1%nat; 2%nat].
    repeat constructor; intros H; repeat (apply elem_of_cons in H as [H|H]; [discriminate|]);
      inversion H. }
  pose proof (applyEntry_offsets None indexThree [] storeThree 0%nat
                (fixAdding 10 2 false) eq_refl) as H.
  cbn zeta in H. destruct H as (Hw & _ & Hoff).
  split; [reflexivity|]. split; [exact Hnd|]. split; [exact Hw|].
  destruct (Hoff eq_refl ltac:(discriminate) Hnd 2%nat
              {| start := 12; end_ := None; rules := None |} eq_refl) as [_ Hin].
  destruct Hin as (r' & Hr' & _ & Hstart & _ & _ & _ & Hend).
  { change (indexed indexThree) with [0%nat; 1%nat; 2%nat].
    apply list_elem_of_further, list_elem_of_further, list_elem_of_here. }
  exists r'. split; [exact Hr'|]. split.
  - apply Hstart. reflexivity.
  - apply Hend. reflexivity.
Defined.

(** C3 as stated fails: the range from line 5 to line 15 straddles the end
    line 10 of a fix that adds two lines, and its end moves to line 17. *)
Lemma offset_moves_end_of_straddling_range :
  storeBar !! 0%nat = Some {| start := 5; end_ := Some 15; rules := None |}
  /\ line (range_end (ApplyFixes.source (fixAdding 10 2 false))) = 10
  /\ ApplyFixes.applyFixes passFooOverBar storeBar 0%nat
     = Return ([{| start := 5; end_ := Some 17; rules := None |}], 1%nat)
  /\ (finalState (ApplyFixes.applyFixes passFooOverBar storeBar 0%nat)).1 <> storeBar.
Proof. repeat split; try (vm_compute; reflexivity). vm_compute. discriminate. Qed.

Lemma applyFixes_without_eligible_fix_witness :
  ApplyFixes.fixersData passNoneEligible
  = [("foo", [fixAdding 3 2 false; fixAdding 8 1 true])]
  /\ finalState (ApplyFixes.applyFixes passNoneEligible storeAll 0%nat) = (storeAll, 0%nat).
Proof.
  split; [reflexivity|].
  apply (proj2 (applyFixes_without_eligible_fix passNoneEligible storeAll 0%nat)).
  intros dr rule entry [= <-] Hrule Hentry.
  apply list_elem_of_singleton in Hrule as ->.
  apply elem_of_cons in Hentry as [->|Hentry]; [reflexivity|].
  apply list_elem_of_singleton in Hentry as ->. reflexivity.
Defined.

Lemma suppression_lists_by_path_witness :
  let problem := problemAt "foo" (Some 3) in
  let result := session None false (Some indexFooTwice) in
  indexFooTwice !! "foo" = Some [range_1_5; range_2_9]
  /\ emitted result (ReportMjs.report problem result 0%nat) = []
  /\ ApplyFixes.applyEntry None indexAllAndFooLocs
       (ApplyFixes.rangesOf indexAllAndFooLocs storeAll "foo") (storeAll, 0%nat)
       (fixAdding 3 2 false)
     = (storeAll, 0%nat).
Proof.
  cbn zeta. split; [reflexivity|].
  pose proof (@suppression_lists_by_path nat unit) as [Hreport Hfix].
  split.
  - apply (proj1 (Hreport (problemAt "foo" (Some 3))
                    (session None false (Some indexFooTwice)) 0%nat 3 indexFooTwice
                    eq_refl eq_refl eq_refl eq_refl eq_refl)
                 [range_1_5; range_2_9] eq_refl).
    exists range_1_5. split; [apply list_elem_of_here|]. split; [reflexivity|]. now left.
  - apply (proj2 (Hfix None indexAllAndFooLocs storeAll "foo" (fixAdding 3 2 false)
                    (storeAll, 0%nat))).
    apply (proj1 (Hfix None indexAllAndFooLocs storeAll "foo" (fixAdding 3 2 false)
                    (storeAll, 0%nat))).
    right. split; [reflexivity|]. exists range_1_5. split; [|reflexivity].
    change (rangesFor _ _) with [range_1_5]. apply list_elem_of_here.
Defined.

(** C1 as stated fails: line 3 lies in a range of the wildcard list, rule
    [foo] has a list of its own, and the report of [foo] at line 3 is not
    suppressed; on the fix-application path the same index does keep a fix
    of [foo] at line 3 from running. *)
Lemma report_consults_one_list :
  let problem := problemAt "foo" (Some 3) in
  let result := session None false (Some indexAllAndFoo) in
  let o := ReportMjs.report problem result 0%nat in
  existsb (covers 3) (rangesFor indexAllAndFoo "foo") = true
  /\ returned o = true
  /\ map w_rule (emitted result o) = ["foo"]
  /\ logged result o = []
  /\ ApplyFixes.view indexAllAndFooLocs storeAll !! "all" = indexAllAndFoo !! "all"
  /\ ApplyFixes.view indexAllAndFooLocs storeAll !! "foo" = indexAllAndFoo !! "foo"
  /\ ApplyFixes.mayFix (W := nat) None
       (ApplyFixes.rangesOf indexAllAndFooLocs storeAll "foo") (fixAdding 3 2 false)
     = false.
Proof. repeat split; vm_compute; reflexivity. Qed.

Lemma applyFix_disabled_ranges_witness :
  let result := session None false (Some indexAllAndFoo) in
  let o := FixMjs.applyFix S result "foo" (rangeAtLine 3) 0%nat in
  range_1_5 ∈ rangesFor indexAllAndFoo "foo"
  /\ FixMjs.isInRange (rangeAtLine 3) (cb range_1_5) = true
  /\ (finalState o).2 = 0%nat
  /\ fixersData (stylelint (finalState o).1) !! "foo"
     = Some [{| fd_range := rangeAtLine 3; fixed := false |}].
Proof.
  cbn zeta.
  assert (Hin : range_1_5 ∈ rangesFor indexAllAndFoo "foo").
  { change (rangesFor _ _) with [range_1_5]. apply list_elem_of_here. }
  split; [exact Hin|]. split; [reflexivity|].
  pose proof (applyFix_disabled_ranges S (session None false (Some indexAllAndFoo))
                "foo" (rangeAtLine 3) 0%nat indexAllAndFoo eq_refl) as H.
  cbn zeta in H. destruct H as (Hskip & _).
  destruct (Hskip eq_refl (ex_intro _ range_1_5 (conj Hin eq_refl))) as [[_ Hrec] Hw].
  split; [exact Hw | exact Hrec].
Defined.

(** C7 as stated fails on [applyFix] of report.mjs: line 3 lies in a range
    of the wildcard list, rule [foo] has a list of its own, and the fix of
    [foo] at line 3 is executed and recorded as fixed. *)
Lemma report_applyFix_ignores_wildcard :
  let result := session None false (Some indexAllAndFoo) in
  let o := ReportMjs.applyFix S result "foo" (rangeAtLine 3) 0%nat in
  existsb (covers 3) (rangesFor indexAllAndFoo "foo") = true
  /\ optIgnoreDisables (config (stylelint result)) = false
  /\ (finalState o).2 = 1%nat
  /\ fixersData (stylelint (finalState o).1) !! "foo"
     = Some [{| fd_range := rangeAtLine 3; fixed := true |}].
Proof. repeat split; vm_compute; reflexivity. Qed.

(** * More on the reporting path *)

Section ReportCoverage.

Context {W : Type}.

Implicit Types (problem : ReportMjs.Problem W) (result : PostcssResult) (w : W).

(** The states that a call of [report] can reach. *)
Lemma report_shapes problem result w :
  let o := ReportMjs.report problem result w in
  let s := stylelint result in
  let ruleName := ReportMjs.p_ruleName problem in
  let sev := ReportMjs.ruleSeverityOf problem s in
  let text_ := buildWarningMessage (ReportMjs.messageOf problem s)
                 (ReportMjs.p_messageArgs problem) in
  (exists e, o = Throw e (result, w))
  \/ o = Return (result, w)
  \/ (exists fd w',
        o = Return (withStylelint
                      {| config := config s;
                         ruleSeverities := ruleSeverities s;
                         quiet := quiet s;
                         disabledRanges := disabledRanges s;
                         disabledWarnings := disabledWarnings s;
                         stylelintError := stylelintError s;
                         stylelintWarning := stylelintWarning s;
                         customMessages := customMessages s;
                         fixersData := fd |} result, w'))
  \/ (exists l, o = Return (withStylelint (ReportMjs.pushDisabledWarning ruleName l s) result, w))
  \/ (exists s1,
        (s1 = s \/ exists l, s1 = ReportMjs.pushDisabledWarning ruleName l s)
        /\ o = Return (warn (ReportMjs.warningProperties problem sev) text_
                            (withStylelint (ReportMjs.setFlags sev s1) result), w)).
Proof.
  cbn zeta. destruct (passesFixGuards problem result) eqn:Hg.
  - rewrite (report_passesFixGuards _ _ _ Hg).
    destruct (passesQuiet problem result) eqn:Hq;
      [|right; left; now apply reportDiagnostic_quiet].
    destruct (resolvedLine problem) as [l|] eqn:Hl;
      [|left; eexists; now apply reportDiagnostic_no_line].
    rewrite (reportDiagnostic_line _ _ _ _ Hq Hl). cbn zeta.
    destruct (existsb _ _); [destruct (ignoreDisables _)|].
    + do 4 right. eexists. split; [right; eauto | reflexivity].
    + do 3 right. left. eauto.
    + do 4 right. eexists. split; [left; reflexivity | reflexivity].
  - unfold passesFixGuards in Hg. unfold ReportMjs.report.
    destruct (ReportMjs.hasFix problem && negb (ReportMjs.hasRangeData problem));
      [left; eauto|].
    cbn [negb andb] in Hg.
    destruct (config_fix _ && ReportMjs.hasRangeData problem); [|discriminate].
    cbn [negb orb] in Hg.
    destruct (ReportMjs.fixRange problem) as [range|]; [|left; eauto].
    rewrite bool_decide_eq_true_2 in Hg by eauto. cbn [andb] in Hg.
    apply negb_false_iff, hasFix_spec in Hg as [f ->].
    unfold ReportMjs.applyFix.
    destruct (disabledRanges (stylelint result)); [|left; eauto].
    right. right. left. eauto.
Qed.

Ltac report_by_shape problem result w :=
  cbn zeta;
  destruct (report_shapes problem result w)
    as [[e Ho]|[Ho|[[fd [w' Ho]]|[[l Ho]|[s1 [[Hs1|[l Hs1]] Ho]]]]]];
  rewrite Ho; try rewrite Hs1;
  unfold emitted, logged, flags;
  cbn [finalState fst snd warn withStylelint stylelint messages disabledWarnings
       ReportMjs.setFlags ReportMjs.pushDisabledWarning default from_option id
       config ruleSeverities quiet disabledRanges customMessages fixersData
       stylelintError stylelintWarning];
  rewrite ?drop_all, ?drop_app_length.

(** X1.  [report] only appends: the messages after a call are the messages
    before it followed by at most one diagnostic, and the suppression log
    after it is the log before it followed by at most one entry; what is
    appended bears the name of the rule of the problem. *)
Theorem report_appends problem result w :
  let o := ReportMjs.report problem result w in
  let ruleName := ReportMjs.p_ruleName problem in
  messages (finalState o).1 = messages result ++ emitted result o
  /\ (length (emitted result o) <= 1)%nat
  /\ default [] (disabledWarnings (stylelint (finalState o).1))
     = default [] (disabledWarnings (stylelint result)) ++ logged result o
  /\ (length (logged result o) <= 1)%nat
  /\ (forall d, d ∈ emitted result o -> w_rule d = ruleName)
  /\ (forall d, d ∈ logged result o -> dw_rule d = ruleName).
Proof.
  report_by_shape problem result w;
    rewrite ?app_nil_r; repeat split; auto;
    try (cbn; lia);
    try (intros d Hd; inversion Hd; fail);
    intros d Hd; apply list_elem_of_singleton in Hd as ->; reflexivity.
Qed.

(** X2.  [report] does not write what it only reads: the configuration, the
    severities of the rules, the quiet flag, the index of disabled ranges
    and the custom messages are the same after every call, returned or
    thrown; and when the call is not deferred to a fix, the fixer-attempt
    log and the document are the same too. *)
Theorem report_keeps_settings problem result w :
  let o := ReportMjs.report problem result w in
  let s := stylelint result in
  let s' := stylelint (finalState o).1 in
  config s' = config s
  /\ ruleSeverities s' = ruleSeverities s
  /\ quiet s' = quiet s
  /\ disabledRanges s' = disabledRanges s
  /\ customMessages s' = customMessages s
  /\ (passesFixGuards problem result = true ->
      fixersData s' = fixersData s /\ (finalState o).2 = w).
Proof.
  cbn zeta. do 5 (split; [report_by_shape problem result w; reflexivity|]).
  intros Hg. rewrite (report_passesFixGuards _ _ _ Hg).
  destruct (passesQuiet problem result) eqn:Hq;
    [|now rewrite reportDiagnostic_quiet].
  destruct (resolvedLine problem) as [l|] eqn:Hl;
    [|now rewrite reportDiagnostic_no_line].
  rewrite (reportDiagnostic_line _ _ _ _ Hq Hl). cbn zeta.
  destruct (existsb _ _); [destruct (ignoreDisables _)|]; split; reflexivity.
Qed.

(** X3.  The session flags are set and never cleared: after a call the
    error flag holds exactly when it held before or a diagnostic of severity
    ['error'] was emitted by the call, and likewise the warning flag with
    the severity ['warning']. *)
Theorem report_sets_flags_once problem result w :
  let o := ReportMjs.report problem result w in
  let s := stylelint result in
  let s' := stylelint (finalState o).1 in
  stylelintError s'
  = stylelintError s || existsb (fun d => is_string (w_severity d) "error") (emitted result o)
  /\ stylelintWarning s'
     = stylelintWarning s
       || existsb (fun d => is_string (w_severity d) "warning") (emitted result o).
Proof.
  report_by_shape problem result w;
    cbn [existsb ReportMjs.warningProperties w_severity];
    rewrite ?orb_false_r; try (split; reflexivity);
    repeat match goal with
           | |- context [is_string ?v ?t] => destruct (is_string v t)
           end;
    destruct (stylelintError (stylelint result)), (stylelintWarning (stylelint result));
    split; reflexivity.
Qed.

Lemma bool_decide_is_Some {A : Type} (o : option A) :
  bool_decide (is_Some o) = match o with Some _ => true | None => false end.
Proof.
  destruct o; [apply bool_decide_eq_true_2; eauto|].
  apply bool_decide_eq_false_2. intros [? ?]. discriminate.
Qed.




(** X5.  A problem that carries a fix callback and range data, in a session
    with fixing enabled, is deferred to the fix: whatever its severity and
    its line, and whether the session is quiet or not, [report] returns
    without a diagnostic, without a suppression-log entry and without a
    change of the flags.  One attempt is appended to the fixer-attempt log of
    the rule, with the range of the problem, and the logs of the other rules
    are kept; the callback edits the document exactly when the attempt is
    recorded as fixed. *)
Theorem report_defers_fix problem result w f range dr
    (Hfix : ReportMjs.p_fix problem = Some f)
    (Hcfg : config_fix (default emptyConfig (config (stylelint result))) = true)
    (Hdata : ReportMjs.hasRangeData problem = true)
    (Hrange : ReportMjs.fixRange problem = Some range)
    (Hdr : disabledRanges (stylelint result) = Some dr) :
  let o := ReportMjs.report problem result w in
  let s := stylelint result in
  let s' := stylelint (finalState o).1 in
  let ruleName := ReportMjs.p_ruleName problem in
  let mayFix :=
    optIgnoreDisables (config s)
    || negb (existsb (ReportMjs.isInRange range) (ReportMjs.reportRanges dr ruleName)) in
  returned o = true
  /\ emitted result o = [] /\ logged result o = []
  /\ flags o = (stylelintError s, stylelintWarning s)
  /\ fixersData s' !! ruleName
     = Some (default [] (fixersData s !! ruleName)
             ++ [{| fd_range := range; fixed := mayFix |}])
  /\ (forall other, other <> ruleName -> fixersData s' !! other = fixersData s !! other)
  /\ (finalState o).2 = (if mayFix then f w else w).
Proof.
  cbn zeta. unfold ReportMjs.report, ReportMjs.hasFix.
  rewrite bool_decide_is_Some, Hfix, Hdata, Hcfg, Hrange. cbn [negb andb].
  unfold ReportMjs.applyFix. rewrite Hdr. cbn zeta.
  change (default (default [] (dr !! "all")) (dr !! ReportMjs.p_ruleName problem))
    with (ReportMjs.reportRanges dr (ReportMjs.p_ruleName problem)).
  rewrite <- orb_assoc, empty_or_none.
  unfold emitted, logged, flags.
  cbn [returned finalState fst snd withStylelint stylelint messages disabledWarnings
       fixersData stylelintError stylelintWarning].
  rewrite !drop_all, lookup_insert_eq.
  repeat split; try reflexivity.
  intros other Hother. now rewrite lookup_insert_ne.
Qed.

(** X6.  With [ignoreDisables] a disable never hides a diagnostic: for a
    problem that is not deferred to a fix, the call returns or throws,
    emits and sets the flags as it does in the same session without its
    index of disabled ranges. *)
Theorem report_ignoreDisables_ignores_index problem result w
    (Hig : ignoreDisables (default emptyConfig (config (stylelint result))) = true)
    (Hguards : passesFixGuards problem result = true) :
  let o := ReportMjs.report problem result w in
  let o0 := ReportMjs.report problem (withoutDisabledRanges result) w in
  returned o = returned o0
  /\ emitted result o = emitted (withoutDisabledRanges result) o0
  /\ flags o = flags o0
  /\ messages (finalState o).1 = messages (finalState o0).1.
Proof.
  cbn zeta.
  assert (Hg0 : passesFixGuards problem (withoutDisabledRanges result) = true)
    by exact Hguards.
  rewrite (report_passesFixGuards _ _ _ Hguards), (report_passesFixGuards _ _ _ Hg0).
  destruct (passesQuiet problem result) eqn:Hq.
  - assert (Hq0 : passesQuiet problem (withoutDisabledRanges result) = true) by exact Hq.
    destruct (resolvedLine problem) as [l|] eqn:Hl.
    + rewrite (reportDiagnostic_line _ _ _ _ Hq Hl), (reportDiagnostic_line _ _ _ _ Hq0 Hl).
      cbn zeta. change (consulted (withoutDisabledRanges result) _) with (@nil DisabledRange).
      cbn [existsb].
      change (config (stylelint (withoutDisabledRanges result)))
        with (config (stylelint result)).
      rewrite Hig. unfold emitted, flags.
      destruct (existsb _ _); cbn; rewrite !drop_app_length; repeat split; reflexivity.
    + rewrite (reportDiagnostic_no_line _ _ _ Hq Hl), (reportDiagnostic_no_line _ _ _ Hq0 Hl).
      unfold emitted, flags. cbn. rewrite !drop_all. repeat split; reflexivity.
  - assert (Hq0 : passesQuiet problem (withoutDisabledRanges result) = false) by exact Hq.
    rewrite (reportDiagnostic_quiet _ _ _ Hq), (reportDiagnostic_quiet _ _ _ Hq0).
    unfold emitted, flags. cbn. rewrite !drop_all. repeat split; reflexivity.
Qed.

(** X7.  Without ranges to walk through, nothing is suppressed: when the
    session has no index of disabled ranges, or the index has neither the
    key of the rule nor the wildcard key, or the list of the rule is empty
    (whatever the wildcard list holds), a problem that reaches the scan is
    emitted and nothing is logged, with or without [ignoreDisables]. *)
Theorem report_without_ranges problem result w l
    (Hguards : passesFixGuards problem result = true)
    (Hquiet : passesQuiet problem result = true)
    (Hline : resolvedLine problem = Some l)
    (Hnone : disabledRanges (stylelint result) = None
             \/ exists dr,
                 disabledRanges (stylelint result) = Some dr
                 /\ (dr !! ReportMjs.p_ruleName problem = Some []
                     \/ (dr !! ReportMjs.p_ruleName problem = None
                         /\ dr !! RULE_NAME_ALL = None))) :
  let o := ReportMjs.report problem result w in
  returned o = true
  /\ emitted result o = [diagnosticOf problem (stylelint result)]
  /\ logged result o = [].
Proof.
  cbn zeta.
  assert (Hc : consulted result (ReportMjs.p_ruleName problem) = []).
  { unfold consulted, ReportMjs.reportRanges.
    destruct Hnone as [->|[dr [-> [->|[-> ->]]]]]; reflexivity. }
  destruct (report_cases problem result w)
    as [[Hg' _]|[[_ [Hq' _]]|[[_ [_ [Hl' _]]]|[[l' H]|[[l' H]|[l' H]]]]]];
    try congruence.
  - destruct H as (_ & _ & _ & _ & Hr & He & Hlog & _). auto.
  - destruct H as (_ & _ & _ & Hhit & _). rewrite Hc in Hhit. discriminate.
  - destruct H as (_ & _ & _ & Hhit & _). rewrite Hc in Hhit. discriminate.
Qed.


End ReportCoverage.

(** * More on message formatting *)

Lemma regexSearch_no_percent (s : string) :
  hasChar "%" s = false -> regexSearch s = None.
Proof.
  induction s as [|c rest IH]; [reflexivity|].
  cbn [hasChar]. intros H. apply orb_false_iff in H as [Hc Hrest].
  cbn [regexSearch]. unfold startsWithPlaceholder, is_percent.
  rewrite Hc, (IH Hrest). now destruct rest.
Qed.

(** X9.  A format without a percent sign is the text of the message as it
    is, whatever the arguments are, dollar signs and placeholders in their
    texts included. *)
Theorem printfLike_without_percent (format : string) (margs : option (list jsarg))
    (Hformat : hasChar "%" format = false) :
  buildWarningMessage (MsgString format) margs = format.
Proof.
  unfold buildWarningMessage.
  apply printfLike_no_match. now apply regexSearch_no_percent.
Qed.

Lemma countPlaceholders_regexSearch (s : string) :
  countPlaceholders s = match regexSearch s with
                        | Some (_, _, after) => S (countPlaceholders after)
                        | None => O
                        end.
Proof.
  induction s as [|c rest IH]; [reflexivity|].
  cbn [countPlaceholders regexSearch].
  destruct (startsWithPlaceholder (String c rest)) eqn:E.
  - destruct rest; [discriminate E | reflexivity].
  - rewrite IH. now destruct (regexSearch rest) as [[[b m] a]|].
Qed.

Lemma countPlaceholders_inert (p x : string) :
  inert p -> countPlaceholders (p +:+ x) = countPlaceholders x.
Proof.
  intros Hp. rewrite (countPlaceholders_regexSearch (p +:+ x)), Hp.
  rewrite (countPlaceholders_regexSearch x).
  now destruct (regexSearch x) as [[[b m] a]|].
Qed.

Lemma countPlaceholders_formatSpec (args : list jsarg) :
  forall p s : string,
    forallb cleanArg args = true -> formatOk s = true -> inert p ->
    countPlaceholders (p +:+ formatSpec s (map String_ args))
    = (countPlaceholders s - length args)%nat.
Proof.
  induction args as [|arg args IH]; intros p s Hargs Hok Hp.
  - cbn [map length]. rewrite formatSpec_nil, countPlaceholders_inert by exact Hp. lia.
  - cbn [forallb] in Hargs. apply andb_true_iff in Hargs as [Harg Hargs].
    unfold cleanArg in Harg. apply andb_true_iff in Harg as [Hpc _].
    apply negb_true_iff in Hpc.
    cbn [map length]. rewrite (countPlaceholders_regexSearch s).
    destruct (regexSearch s) as [[[b m] a]|] eqn:Es.
    + rewrite (formatSpec_match _ _ _ _ _ _ Es), <- !append_assoc.
      rewrite (IH ((p +:+ b) +:+ String_ arg) a Hargs).
      * lia.
      * eapply regexSearch_after_ok; eauto.
      * apply inert_app; [apply inert_app; [exact Hp|]|].
        -- eapply regexSearch_before_inert; eauto.
        -- now apply inert_no_percent.
    + rewrite (formatSpec_no_match _ _ Es), countPlaceholders_inert by exact Hp.
      rewrite (countPlaceholders_regexSearch s), Es. reflexivity.
Qed.

(** X10.  Each argument fills one placeholder.  When the format has no
    percent sign right before a placeholder and the text of no argument has
    a percent or a dollar sign, the formatted text has as many placeholders
    as the format less the number of arguments, none when the arguments are
    at least as many; and the arguments given beyond the placeholders of the
    format are ignored, whatever they are. *)
Theorem printfLike_fills_one_each (format : string) (args surplus : list jsarg)
    (Hformat : formatOk format = true)
    (Hargs : forallb cleanArg args = true) :
  countPlaceholders (printfLike format args)
  = (countPlaceholders format - length args)%nat
  /\ ((countPlaceholders format <= length args)%nat ->
      printfLike format (args ++ surplus) = printfLike format args).
Proof.
  assert (Hcount : countPlaceholders (printfLike format args)
                   = (countPlaceholders format - length args)%nat).
  { rewrite (printfLike_formatSpec _ _ Hformat Hargs).
    exact (countPlaceholders_formatSpec args "" format Hargs Hformat inert_empty). }
  split; [exact Hcount|].
  intros Hle. unfold printfLike at 1. rewrite fold_left_app.
  change (fold_left _ args format) with (printfLike format args).
  apply printfLike_no_match.
  rewrite countPlaceholders_regexSearch in Hcount.
  destruct (regexSearch (printfLike format args)) as [[[b m] a]|]; [lia | reflexivity].
Qed.

(** * More on the fix of one problem *)

Section FixCoverage.

Context {W : Type}.

Lemma existsb_map_cb (inside : Tuple -> bool) (l : list DisabledRange) :
  existsb inside (map cb l) = existsb (fun r => inside (cb r)) l.
Proof. induction l as [|r l IH]; cbn; [reflexivity | now rewrite IH]. Qed.

(** X11.  The fixer-attempt log of a rule grows at its end and nowhere
    else: after a run of attempts added for one rule, the log of the rule is
    what it was, or empty when the rule had none, followed by the attempts
    in the order of the calls; the logs of the other rules and the messages
    are kept. *)
Theorem addFixerData_accumulates (result : PostcssResult) (name : string)
    (attempts : list FixerData) :
  let result' := foldl (fun r data => FixMjs.addFixerData r name data) result attempts in
  (attempts <> [] ->
   fixersData (stylelint result') !! name
   = Some (default [] (fixersData (stylelint result) !! name) ++ attempts))
  /\ (forall other, other <> name ->
        fixersData (stylelint result') !! other = fixersData (stylelint result) !! other)
  /\ messages result' = messages result
  /\ disabledWarnings (stylelint result') = disabledWarnings (stylelint result).
Proof.
  cbn zeta. revert result.
  induction attempts as [|data attempts IH]; intros result; cbn [foldl].
  - repeat split; auto. intros H. now destruct H.
  - destruct (IH (FixMjs.addFixerData result name data)) as (Hlog & Hother & Hmsg & Hdw).
    split; [|split; [|split]].
    + intros _. destruct attempts as [|data' attempts].
      * cbn [foldl]. apply fixersData_addFixerData.
      * rewrite Hlog by discriminate. rewrite fixersData_addFixerData.
        cbn [default from_option id]. now rewrite <- app_assoc.
    + intros other Hne. rewrite (Hother other Hne).
      unfold FixMjs.addFixerData. cbn.
      destruct (fixersData (stylelint result) !! name); now rewrite lookup_insert_ne.
    + now rewrite Hmsg.
    + now rewrite Hdw.
Qed.

(** X12.  The two versions of [applyFix] agree when the list of the rule,
    if the index has one, repeats the bounds of every range of the wildcard
    list, and in particular when the index has no list for the rule: they
    return or throw alike, record the same attempt and run the callback
    alike. *)
Theorem applyFix_versions_agree (callback : W -> W) (result : PostcssResult)
    (ruleName : string) (range : Range) (w : W)
    (Hcopy : forall dr listed r,
        disabledRanges (stylelint result) = Some dr ->
        dr !! ruleName = Some listed -> r ∈ default [] (dr !! RULE_NAME_ALL) ->
        exists r', r' ∈ listed /\ cb r' = cb r) :
  FixMjs.applyFix callback result ruleName range w
  = ReportMjs.applyFix callback result ruleName range w.
Proof.
  unfold FixMjs.applyFix, ReportMjs.applyFix, FixMjs.addFixerData.
  destruct (disabledRanges (stylelint result)) as [dr|] eqn:Hdr; [|reflexivity].
  cbn zeta. rewrite <- !orb_assoc, !empty_or_none.
  assert (Hsame :
    existsb (FixMjs.isInRange range)
      (map cb (default [] (dr !! "all")) ++ default [] (option_map (map cb) (dr !! ruleName)))
    = existsb (ReportMjs.isInRange range) (default (default [] (dr !! "all")) (dr !! ruleName))).
  { pose proof (fallback_agrees_with_union dr ruleName (FixMjs.isInRange range)
                  (fun listed r => Hcopy dr listed r eq_refl)) as H.
    unfold ReportMjs.reportRanges, rangesFor, RULE_NAME_ALL in H.
    change (existsb (ReportMjs.isInRange range)
              (default (default [] (dr !! "all")) (dr !! ruleName)))
      with (existsb (fun r => FixMjs.isInRange range (cb r))
              (default (default [] (dr !! "all")) (dr !! ruleName))).
    rewrite H, !existsb_app, existsb_map_cb, orb_comm. f_equal.
    destruct (dr !! ruleName); [apply existsb_map_cb | reflexivity]. }
  rewrite Hsame. cbn [stylelint withStylelint fixersData].
  destruct (fixersData (stylelint result) !! ruleName); reflexivity.
Qed.

(** X13.  The line tests of the reporting path and of the fix paths are one
    test on every range whose end is not zero: the start line of the fix
    lies in the range exactly when a report at that line would be covered
    by it, the [rules] field apart, which only the reporting path reads.  A
    range whose end is zero is open-ended for the fix paths and matches no
    positive line on the reporting path. *)
Theorem line_tests_agree (range : Range) (r : DisabledRange) :
  let l := line (range_start range) in
  (end_ r <> Some 0 ->
   FixMjs.isInRange range (cb r) = covers l r
   /\ ReportMjs.isInRange range r = covers l r
   /\ ApplyFixes.isInRange range (cb r) = covers l r)
  /\ (forall ruleName,
        rules r = None \/ (exists rs, rules r = Some rs /\ ruleName ∈ rs) ->
        ReportMjs.rangeMatches ruleName l r = covers l r)
  /\ (end_ r = Some 0 ->
      FixMjs.isInRange range (cb r) = (start r <=? l)
      /\ ReportMjs.isInRange range r = (start r <=? l)
      /\ ApplyFixes.isInRange range (cb r) = (start r <=? l)
      /\ (0 < l -> covers l r = false)).
Proof.
  cbn zeta.
  unfold FixMjs.isInRange, ReportMjs.isInRange, ApplyFixes.isInRange, covers, cb,
    ReportMjs.rangeMatches.
  cbn [fst snd]. split; [|split].
  - intros Hend. destruct (end_ r) as [e|]; [|auto].
    assert (He : truthyNum e = true).
    { unfold truthyNum. apply negb_true_iff, Z.eqb_neq. congruence. }
    rewrite He. auto.
  - intros ruleName [->|[rs [-> Hin]]]; [now rewrite andb_true_r|].
    rewrite bool_decide_eq_true_2 by exact Hin. now rewrite andb_true_r.
  - intros ->. cbn. rewrite !andb_true_r. repeat split.
    intros Hl. apply andb_false_iff. right. apply Z.leb_gt. exact Hl.
Qed.

(** X14.  [applyFix], in both versions, writes the fixer-attempt log of its
    rule and nothing else of the session: in a session with an index of
    disabled ranges it returns, the earlier attempts of the rule come first
    in its log, and the logs of the other rules, the messages, the
    suppression log, the flags and the index are kept; in a session without
    an index it throws a [TypeError] before anything is recorded or run. *)
Theorem applyFix_frame (callback : W -> W) (result : PostcssResult)
    (ruleName : string) (range : Range) (w : W) :
  let o1 := FixMjs.applyFix callback result ruleName range w in
  let o2 := ReportMjs.applyFix callback result ruleName range w in
  let kept (o : Outcome (PostcssResult * W)) :=
    let s := stylelint result in
    let s' := stylelint (finalState o).1 in
    returned o = true
    /\ (exists b, fixersData s' !! ruleName
                  = Some (default [] (fixersData s !! ruleName)
                          ++ [{| fd_range := range; fixed := b |}])
                  /\ (finalState o).2 = if b then callback w else w)
    /\ (forall other, other <> ruleName -> fixersData s' !! other = fixersData s !! other)
    /\ messages (finalState o).1 = messages result
    /\ disabledWarnings s' = disabledWarnings s
    /\ (stylelintError s', stylelintWarning s') = (stylelintError s, stylelintWarning s)
    /\ disabledRanges s' = disabledRanges s /\ config s' = config s in
  (is_Some (disabledRanges (stylelint result)) -> kept o1 /\ kept o2)
  /\ (disabledRanges (stylelint result) = None ->
      o1 = Throw TypeError (result, w) /\ o2 = Throw TypeError (result, w)).
Proof.
  cbn zeta. unfold FixMjs.applyFix, ReportMjs.applyFix. split.
  - intros [dr Hdr]. rewrite Hdr. cbn zeta. split.
    + split; [reflexivity|]. split.
      * eexists. split; [|reflexivity].
        cbn [finalState fst]. apply fixersData_addFixerData.
      * split; [|repeat split; (reflexivity || exact Hdr || (symmetry; exact Hdr))].
        intros other Hne. unfold FixMjs.addFixerData. cbn.
        destruct (fixersData (stylelint result) !! ruleName); now rewrite lookup_insert_ne.
    + split; [reflexivity|]. split.
      * eexists. split; [|reflexivity]. cbn. now rewrite lookup_insert_eq.
      * split; [|repeat split; (reflexivity || exact Hdr || (symmetry; exact Hdr))].
        intros other Hne. cbn. now rewrite lookup_insert_ne.
  - intros ->. split; reflexivity.
Qed.

End FixCoverage.

(** * More on the fix-application pass *)

Section PassCoverage.

Context {W Args : Type}.

Implicit Types (entry : ApplyFixes.FixEntry W Args) (w : W).
Implicit Types (dr : gmap string (list ApplyFixes.loc)).

(** X15.  In the pass over one rule the ranges are read once, when the rule
    is reached: the callbacks that run are those of the entries eligible
    against the ranges as they were then, in the order of the registry.  A
    fix of the rule that moves the ranges does not change which of the later
    fixes of the same rule run. *)
Theorem applyRule_runs_eligible (config_ : option Config) dr (h : list DisabledRange) w
    (name : string) (array : list (ApplyFixes.FixEntry W Args)) :
  (ApplyFixes.applyRule config_ dr (h, w) (name, array)).2
  = foldl (fun w' entry => (ApplyFixes.callback entry (ApplyFixes.args entry) w').1) w
      (List.filter (ApplyFixes.mayFix config_ (ApplyFixes.rangesOf dr h name)) array).
Proof.
  unfold ApplyFixes.applyRule. cbn [fst snd].
  generalize (ApplyFixes.rangesOf dr h name) as ranges. intros ranges.
  revert h w. induction array as [|entry array IH]; intros h w; [reflexivity|].
  cbn [foldl List.filter].
  assert (Hstep : exists h',
             ApplyFixes.applyEntry config_ dr ranges (h, w) entry
             = (h', if ApplyFixes.mayFix config_ ranges entry
                    then (ApplyFixes.callback entry (ApplyFixes.args entry) w).1
                    else w)).
  { unfold ApplyFixes.applyEntry. cbn [fst snd].
    destruct (ApplyFixes.mayFix config_ ranges entry); [|eauto].
    destruct (ApplyFixes.callback entry (ApplyFixes.args entry) w) as [w' newSource].
    destruct (negb (optIgnoreDisables config_) && truthyNum _); eauto. }
  destruct Hstep as [h' ->].
  destruct (ApplyFixes.mayFix config_ ranges entry); cbn [foldl]; apply IH.
Qed.

Lemma applyEntry_without_offsets (config_ : option Config) dr (ranges : list Tuple)
    (h : list DisabledRange) w entry :
  optIgnoreDisables config_ = true \/ (ranges = [] /\ dr = ∅) ->
  ApplyFixes.applyEntry config_ dr ranges (h, w) entry
  = (h, if negb (ApplyFixes.unfixable entry)
        then (ApplyFixes.callback entry (ApplyFixes.args entry) w).1
        else w).
Proof.
  intros Hcase. unfold ApplyFixes.applyEntry, ApplyFixes.mayFix.
  assert (Hmay : optIgnoreDisables config_ || (length ranges =? 0)%nat
                 || negb (existsb (ApplyFixes.isInRange (ApplyFixes.source entry)) ranges)
                 = true).
  { destruct Hcase as [->|[-> _]]; [reflexivity|]. cbn. apply orb_true_r. }
  rewrite Hmay, andb_true_r.
  destruct (negb (ApplyFixes.unfixable entry)); [|reflexivity].
  cbn [fst snd].
  destruct (ApplyFixes.callback entry (ApplyFixes.args entry) w) as [w' newSource].
  cbn [fst].
  destruct Hcase as [->|[_ ->]]; [reflexivity|].
  destruct (negb (optIgnoreDisables config_) && truthyNum _); reflexivity.
Qed.

(** X16.  When disables are ignored, or the index of disabled ranges is
    empty, the pass moves no range and runs the callback of every entry that
    is not marked unfixable, rule after rule in the order of the registry. *)
Theorem applyFixes_without_offsets (s : ApplyFixes.Stylelint W Args)
    (h : list DisabledRange) w dr
    (Hdr : ApplyFixes.disabledRanges s = Some dr)
    (Hcase : optIgnoreDisables (ApplyFixes.config s) = true \/ dr = ∅) :
  ApplyFixes.applyFixes s h w
  = Return (h, foldl (fun w' entry =>
                        (ApplyFixes.callback entry (ApplyFixes.args entry) w').1) w
                 (List.filter (fun entry => negb (ApplyFixes.unfixable entry))
                    (concat (ApplyFixes.fixersData s).*2))).
Proof.
  unfold ApplyFixes.applyFixes. rewrite Hdr. cbn zeta. f_equal.
  generalize (ApplyFixes.fixersData s) as rules_. intros rules_. revert w.
  induction rules_ as [|[name array] rules_ IH]; intros w; [reflexivity|].
  cbn [foldl fmap list_fmap snd concat]. rewrite List.filter_app, foldl_app.
  assert (Hrule : ApplyFixes.applyRule (ApplyFixes.config s) dr (h, w) (name, array)
                  = (h, foldl (fun w' entry =>
                          (ApplyFixes.callback entry (ApplyFixes.args entry) w').1) w
                        (List.filter (fun entry => negb (ApplyFixes.unfixable entry)) array))).
  { unfold ApplyFixes.applyRule. cbn [fst snd].
    assert (Hranges : optIgnoreDisables (ApplyFixes.config s) = true
                      \/ (ApplyFixes.rangesOf dr h name = [] /\ dr = ∅)).
    { destruct Hcase as [Hig| ->]; [now left|]. right. split; [|reflexivity].
      unfold ApplyFixes.rangesOf. now rewrite !lookup_empty. }
    generalize dependent (ApplyFixes.rangesOf dr h name). intros ranges Hranges.
    clear IH. revert w. induction array as [|entry array IHa]; intros w; [reflexivity|].
    cbn [foldl List.filter]. rewrite (applyEntry_without_offsets _ _ _ _ _ _ Hranges).
    destruct (negb (ApplyFixes.unfixable entry)); cbn [foldl]; apply IHa. }
  rewrite Hrule. apply IH.
Qed.

Lemma offsetRange_rules endLine diff r :
  rules (ApplyFixes.offsetRange endLine diff r) = rules r.
Proof. apply offsetRange_fields. Qed.

Lemma foldl_alter_shape (f : DisabledRange -> DisabledRange) (locs : list nat) :
  (forall r, rules (f r) = rules r) ->
  forall xs : list DisabledRange,
    let xs' := foldl (fun acc i => alter f i acc) xs locs in
    length xs' = length xs
    /\ forall l, (rules <$> xs' !! l = rules <$> xs !! l)
                 /\ (l ∉ locs -> xs' !! l = xs !! l).
Proof.
  intros Hf. induction locs as [|i locs IH]; intros xs; cbn zeta; cbn [foldl].
  - split; [reflexivity|]. intros l. split; auto.
  - destruct (IH (alter f i xs)) as [Hlen Hl]. cbn zeta in Hlen, Hl.
    split; [now rewrite Hlen, length_alter|].
    intros l. destruct (Hl l) as [Hrules Hout]. split.
    + rewrite Hrules. destruct (decide (i = l)) as [->|Hne].
      * rewrite list_lookup_alter_eq. destruct (xs !! l); cbn; [now rewrite Hf | reflexivity].
      * now rewrite list_lookup_alter_ne.
    + intros Hnot. rewrite Hout.
      * apply list_lookup_alter_ne. intros ->. apply Hnot, list_elem_of_here.
      * intros Hin. apply Hnot. now apply list_elem_of_further.
Qed.

(** X17.  The pass keeps the shape of the store of disabled ranges,
    whatever objects the lists of the index share: the store has the same
    length after the pass, every range object has the [rules] field it had,
    and an object that no list of the index holds is not changed at all. *)
Theorem applyFixes_keeps_store_shape (s : ApplyFixes.Stylelint W Args)
    (h : list DisabledRange) w :
  let h' := (finalState (ApplyFixes.applyFixes s h w)).1 in
  length h' = length h
  /\ (forall l, rules <$> h' !! l = rules <$> h !! l)
  /\ (forall dr l, ApplyFixes.disabledRanges s = Some dr -> l ∉ indexed dr ->
                   h' !! l = h !! l).
Proof.
  cbn zeta. unfold ApplyFixes.applyFixes.
  destruct (ApplyFixes.disabledRanges s) as [dr|]; [|cbn; auto].
  cbn [finalState].
  set (kept := fun (st st' : list DisabledRange * W) =>
         length st'.1 = length st.1
         /\ forall l, (rules <$> st'.1 !! l = rules <$> st.1 !! l)
                      /\ (l ∉ indexed dr -> st'.1 !! l = st.1 !! l)).
  assert (Hrefl : forall st, kept st st) by (intros st; split; auto).
  assert (Htrans : forall a b c, kept a b -> kept b c -> kept a c).
  { intros a b c [L1 H1] [L2 H2]. split; [congruence|]. intros l.
    destruct (H1 l) as [R1 O1], (H2 l) as [R2 O2]. split; [congruence|].
    intros Hn. rewrite O2, O1; auto. }
  assert (Hentry : forall ranges st entry,
             kept st (ApplyFixes.applyEntry (ApplyFixes.config s) dr ranges st entry)).
  { intros ranges st entry. unfold ApplyFixes.applyEntry.
    destruct (ApplyFixes.mayFix _ ranges entry); [|apply Hrefl].
    destruct (ApplyFixes.callback entry (ApplyFixes.args entry) st.2) as [w' newSource].
    destruct (negb _ && truthyNum _); [|split; auto].
    unfold kept. cbn [fst snd]. unfold ApplyFixes.offsetDisabledRanges.
    rewrite foldl_foldl_concat.
    exact (foldl_alter_shape _ (indexed dr) (offsetRange_rules _ _) st.1). }
  assert (Hrule : forall st (rule : string * list (ApplyFixes.FixEntry W Args)),
             kept st (ApplyFixes.applyRule (ApplyFixes.config s) dr st rule)).
  { intros st rule. unfold ApplyFixes.applyRule.
    generalize (ApplyFixes.rangesOf dr st.1 rule.1) as ranges. intros ranges.
    generalize (rule.2) as array. intros array.
    assert (Hgen : forall st0, kept st st0 ->
              kept st (foldl (ApplyFixes.applyEntry (ApplyFixes.config s) dr ranges) st0 array)).
    { induction array as [|entry array IH]; intros st0 H0; [exact H0|].
      cbn [foldl]. apply IH. eapply Htrans; [exact H0 | apply Hentry]. }
    apply Hgen, Hrefl. }
  assert (Hall : forall (rules_ : list (string * list (ApplyFixes.FixEntry W Args))) st0,
            kept (h, w) st0 ->
            kept (h, w) (foldl (ApplyFixes.applyRule (ApplyFixes.config s) dr) st0 rules_)).
  { induction rules_ as [|rule rules_ IH]; intros st0 H0; [exact H0|].
    cbn [foldl]. apply IH. eapply Htrans; [exact H0 | apply Hrule]. }
  destruct (Hall (ApplyFixes.fixersData s) (h, w) (Hrefl _)) as [Hlen Hl].
  cbn [fst] in Hlen, Hl. split; [exact Hlen|]. split.
  - intros l. apply Hl.
  - intros dr' l [= <-] Hn. now apply Hl.
Qed.

End PassCoverage.

(** * Offsets of the disabled ranges *)

Ltac offset_cases :=
  unfold ApplyFixes.offsetRange, truthyNum; cbn [start end_ rules];
  repeat (match goal with
          | |- context [?a <? ?b] => destruct (Z.ltb_spec a b)
          | |- context [?a =? ?b] => destruct (Z.eqb_spec a b)
          end; cbn [start end_ rules negb andb] in *).

Lemma offsetRange_compose (endLine d1 d2 : Z) (r : DisabledRange) :
  0 <= d1 -> 0 <= endLine ->
  ApplyFixes.offsetRange endLine d2 (ApplyFixes.offsetRange endLine d1 r)
  = ApplyFixes.offsetRange endLine (d1 + d2) r.
Proof.
  intros Hd He. destruct r as [s [e|] rs]; offset_cases;
    try lia; try reflexivity; f_equal; try lia; f_equal; lia.
Qed.

Lemma offsetRange_zero (endLine : Z) (r : DisabledRange) :
  ApplyFixes.offsetRange endLine 0 r = r.
Proof.
  destruct r as [s [e|] rs]; offset_cases;
    try lia; try reflexivity; f_equal; try lia; f_equal; lia.
Qed.

(** X18.  Offsets at one end line add up.  When no range object is listed
    twice, the end line is not negative and the first fix adds lines or
    keeps their number, offsetting the store by [d1] and then by [d2] is
    offsetting it by [d1 + d2]; so a second fix at the same end line that
    removes the lines that the first one added brings every range back. *)
Theorem offsetDisabledRanges_compose (dr : gmap string (list ApplyFixes.loc))
    (endLine d1 d2 : Z) (h : list DisabledRange)
    (Hnd : NoDup (indexed dr)) (Hd1 : 0 <= d1) (Hline : 0 <= endLine) :
  ApplyFixes.offsetDisabledRanges dr endLine d2
    (ApplyFixes.offsetDisabledRanges dr endLine d1 h)
  = ApplyFixes.offsetDisabledRanges dr endLine (d1 + d2) h
  /\ ApplyFixes.offsetDisabledRanges dr endLine (- d1)
       (ApplyFixes.offsetDisabledRanges dr endLine d1 h)
     = h.
Proof.
  assert (Hcomp : forall d,
    ApplyFixes.offsetDisabledRanges dr endLine d
      (ApplyFixes.offsetDisabledRanges dr endLine d1 h)
    = ApplyFixes.offsetDisabledRanges dr endLine (d1 + d) h).
  { intros d. apply list_eq. intros l.
    rewrite !(offsetDisabledRanges_lookup dr) by exact Hnd.
    destruct (decide (l ∈ indexed dr)); [|reflexivity].
    destruct (h !! l) as [r|]; cbn; [|reflexivity].
    now rewrite offsetRange_compose. }
  split; [apply Hcomp|].
  rewrite Hcomp, Z.add_opp_diag_r. apply list_eq. intros l.
  rewrite (offsetDisabledRanges_lookup dr) by exact Hnd.
  destruct (decide (l ∈ indexed dr)); [|reflexivity].
  destruct (h !! l) as [r|]; cbn; [|reflexivity].
  now rewrite offsetRange_zero.
Qed.

(** X19.  An offset that adds lines keeps the ranges in order: for an end
    line that is not negative and a difference that is not negative, a range
    whose start is not after its end stays so, a range that ends before
    another one starts still does, and the starts of two ranges stay in the
    order they had. *)
Theorem offsetRange_keeps_order (endLine diff : Z)
    (Hdiff : 0 <= diff) (Hline : 0 <= endLine) :
  let moved := ApplyFixes.offsetRange endLine diff in
  (forall r e, end_ r = Some e -> start r <= e ->
               exists e', end_ (moved r) = Some e' /\ start (moved r) <= e')
  /\ (forall a b ea, end_ a = Some ea -> ea < start b ->
                     exists ea', end_ (moved a) = Some ea' /\ ea' < start (moved b))
  /\ (forall a b, start a <= start b -> start (moved a) <= start (moved b)).
Proof.
  cbn zeta. split; [|split].
  - intros [s oe rs] e He Hle. cbn in He, Hle. subst oe.
    offset_cases; eexists; (split; [reflexivity|]); cbn [start]; lia.
  - intros [sa oea rsa] [sb oeb rsb] ea He Hlt. cbn in He, Hlt. subst oea.
    destruct oeb as [eb|]; offset_cases;
      eexists; (split; [reflexivity|]); cbn [start]; lia.
  - intros [sa [ea|] rsa] [sb [eb|] rsb] Hle; cbn in Hle; offset_cases; lia.
Qed.

Lemma iter_fmap_swap {A : Type} (f : A -> A) (n : nat) (o : option A) :
  Nat.iter n f <$> (f <$> o) = Nat.iter (S n) f <$> o.
Proof.
  destruct o as [x|]; [|reflexivity].
  cbn [fmap option_fmap option_map]. now rewrite Nat.iter_succ_r.
Qed.

Lemma foldl_alter_count {A : Type} (f : A -> A) (locs : list nat) :
  forall (xs : list A) (l : nat),
    foldl (fun acc i => alter f i acc) xs locs !! l
    = Nat.iter (count_occ Nat.eq_dec locs l) f <$> xs !! l.
Proof.
  induction locs as [|i locs IH]; intros xs l; cbn [foldl count_occ].
  - now destruct (xs !! l).
  - rewrite IH. destruct (Nat.eq_dec i l) as [->|Hne].
    + rewrite list_lookup_alter_eq. apply iter_fmap_swap.
    + now rewrite list_lookup_alter_ne.
Qed.

(** X20.  A range object is offset once for each place it has in the lists
    of the index: an object that two lists share, or that one list holds
    twice, is moved twice by one fix, and an object that no list holds is
    not moved. *)
Theorem offsetDisabledRanges_counts (dr : gmap string (list ApplyFixes.loc))
    (endLine diff : Z) (h : list DisabledRange) (l : ApplyFixes.loc) :
  ApplyFixes.offsetDisabledRanges dr endLine diff h !! l
  = Nat.iter (count_occ Nat.eq_dec (indexed dr) l) (ApplyFixes.offsetRange endLine diff)
      <$> h !! l.
Proof.
  unfold ApplyFixes.offsetDisabledRanges. rewrite foldl_foldl_concat.
  apply foldl_alter_count.
Qed.

(** * Reports do not depend on one another *)

Section ReportOrder.

Context {W : Type}.

Implicit Types (problem : ReportMjs.Problem W) (result : PostcssResult) (w : W).

Lemma report_settings problem result w :
  sameSettings (stylelint (finalState (ReportMjs.report problem result w)).1)
                (stylelint result).
Proof.
  unfold sameSettings.
  destruct (report_shapes problem result w)
    as [[e Ho]|[Ho|[[fd [w' Ho]]|[[l Ho]|[s1 [[Hs1|[l Hs1]] Ho]]]]]];
    rewrite Ho; try rewrite Hs1; repeat split; reflexivity.
Qed.

Lemma report_same_settings problem result1 result2 w1 w2 :
  sameSettings (stylelint result1) (stylelint result2) ->
  let o1 := ReportMjs.report problem result1 w1 in
  let o2 := ReportMjs.report problem result2 w2 in
  returned o1 = returned o2
  /\ emitted result1 o1 = emitted result2 o2
  /\ logged result1 o1 = logged result2 o2.
Proof.
  intros (Hc & Hs & Hq & Hd & Hm).
  destruct result1 as [[c1 rs1 q1 d1 dw1 se1 sw1 cm1 fd1] m1],
           result2 as [[c2 rs2 q2 d2 dw2 se2 sw2 cm2 fd2] m2].
  cbn in Hc, Hs, Hq, Hd, Hm. subst c2 rs2 q2 d2 cm2. cbn zeta.
  set (r1 := {| stylelint := {| config := c1; ruleSeverities := rs1; quiet := q1;
                                disabledRanges := d1; disabledWarnings := dw1;
                                stylelintError := se1; stylelintWarning := sw1;
                                customMessages := cm1; fixersData := fd1 |};
                messages := m1 |}).
  set (r2 := {| stylelint := {| config := c1; ruleSeverities := rs1; quiet := q1;
                                disabledRanges := d1; disabledWarnings := dw2;
                                stylelintError := se2; stylelintWarning := sw2;
                                customMessages := cm1; fixersData := fd2 |};
                messages := m2 |}).
  assert (Hdiag : let o1 := ReportMjs.reportDiagnostic problem r1 w1 in
                  let o2 := ReportMjs.reportDiagnostic problem r2 w2 in
                  returned o1 = returned o2
                  /\ emitted r1 o1 = emitted r2 o2 /\ logged r1 o1 = logged r2 o2).
  { cbn zeta. destruct (passesQuiet problem r1) eqn:Hq1.
    - assert (Hq2 : passesQuiet problem r2 = true) by exact Hq1.
      destruct (resolvedLine problem) as [l|] eqn:Hl.
      + rewrite (reportDiagnostic_line _ _ _ _ Hq1 Hl), (reportDiagnostic_line _ _ _ _ Hq2 Hl).
        cbn zeta. change (consulted r2 _) with (consulted r1 (ReportMjs.p_ruleName problem)).
        change (config (stylelint r2)) with (config (stylelint r1)).
        destruct (existsb _ _); [destruct (ignoreDisables _)|];
          unfold emitted, logged; cbn; rewrite ?drop_all, ?drop_app_length;
          repeat split; reflexivity.
      + rewrite (reportDiagnostic_no_line _ _ _ Hq1 Hl), (reportDiagnostic_no_line _ _ _ Hq2 Hl).
        unfold emitted, logged; cbn; rewrite ?drop_all; repeat split; reflexivity.
    - assert (Hq2 : passesQuiet problem r2 = false) by exact Hq1.
      rewrite (reportDiagnostic_quiet _ _ _ Hq1), (reportDiagnostic_quiet _ _ _ Hq2).
      unfold emitted, logged; cbn; rewrite ?drop_all; repeat split; reflexivity. }
  unfold ReportMjs.report.
  change (config (stylelint r2)) with (config (stylelint r1)).
  destruct (ReportMjs.hasFix problem && negb (ReportMjs.hasRangeData problem));
    [unfold emitted, logged; cbn; rewrite ?drop_all; repeat split; reflexivity|].
  destruct (config_fix _ && ReportMjs.hasRangeData problem); [|exact Hdiag].
  destruct (ReportMjs.fixRange problem) as [range|];
    [|unfold emitted, logged; cbn; rewrite ?drop_all; repeat split; reflexivity].
  destruct (ReportMjs.p_fix problem) as [f|]; [|exact Hdiag].
  unfold ReportMjs.applyFix. cbn [stylelint disabledRanges r1 r2].
  destruct d1; unfold emitted, logged; cbn; rewrite ?drop_all; repeat split; reflexivity.
Qed.

(** X21.  What a call of [report] emits and logs, and whether it returns,
    depends on the problem and on the settings of the session only: the
    configuration, the severities of the rules, the quiet flag, the index of
    disabled ranges and the custom messages.  The messages, the suppression
    log, the flags and the fixer-attempt log already in the session, and
    the document, play no role; so a problem is reported after another
    report as it is reported alone. *)
Theorem report_independent problem problem' result1 result2 w1 w2 w3 :
  let o1 := ReportMjs.report problem result1 w1 in
  let o2 := ReportMjs.report problem result2 w2 in
  let after := (finalState (ReportMjs.report problem' result1 w1)).1 in
  let o3 := ReportMjs.report problem after w3 in
  (config (stylelint result1) = config (stylelint result2) ->
   ruleSeverities (stylelint result1) = ruleSeverities (stylelint result2) ->
   quiet (stylelint result1) = quiet (stylelint result2) ->
   disabledRanges (stylelint result1) = disabledRanges (stylelint result2) ->
   customMessages (stylelint result1) = customMessages (stylelint result2) ->
   returned o1 = returned o2
   /\ emitted result1 o1 = emitted result2 o2
   /\ logged result1 o1 = logged result2 o2)
  /\ (returned o3 = returned o1
      /\ emitted after o3 = emitted result1 o1
      /\ logged after o3 = logged result1 o1).
Proof.
  cbn zeta. split.
  - intros Hc Hs Hq Hd Hm. apply report_same_settings. repeat split; assumption.
  - apply report_same_settings, report_settings.
Qed.

End ReportOrder.

(** * The further theorems at sample inputs *)

Lemma report_keeps_settings_witness :
  let problem := problemAt "foo" (Some 3) in
  let result := session None false (Some indexFooTwice) in
  let o := ReportMjs.report problem result 0%nat in
  passesFixGuards problem result = true
  /\ fixersData (stylelint (finalState o).1) = fixersData (stylelint result)
  /\ (finalState o).2 = 0%nat.
Proof.
  cbn zeta. split; [reflexivity|].
  exact (proj2 (proj2 (proj2 (proj2 (proj2
           (report_keeps_settings (problemAt "foo" (Some 3))
              (session None false (Some indexFooTwice)) 0%nat))))) eq_refl).
Defined.


Lemma report_defers_fix_witness :
  let problem := problemDeferred "foo" 3 in
  let result := session (Some fixing) true (Some indexFooTwice) in
  let o := ReportMjs.report problem result 0%nat in
  ReportMjs.p_fix problem = Some S
  /\ ReportMjs.hasRangeData problem = true
  /\ ReportMjs.fixRange problem = Some (rangeAtLine 3)
  /\ returned o = true /\ emitted result o = []
  /\ fixersData (stylelint (finalState o).1) !! "foo"
     = Some [{| fd_range := rangeAtLine 3; fixed := false |}]
  /\ (finalState o).2 = 0%nat.
Proof.
  cbn zeta.
  pose proof (report_defers_fix (problemDeferred "foo" 3)
                (session (Some fixing) true (Some indexFooTwice)) 0%nat S (rangeAtLine 3)
                indexFooTwice eq_refl eq_refl eq_refl eq_refl eq_refl) as H.
  cbn zeta in H. destruct H as (Hr & He & _ & _ & Hlog & _ & Hw).
  split; [reflexivity|]. split; [reflexivity|]. split; [reflexivity|].
  split; [exact Hr|]. split; [exact He|]. split; [exact Hlog | exact Hw].
Defined.

Lemma report_ignoreDisables_ignores_index_witness :
  let problem := problemAt "foo" (Some 3) in
  let result := session (Some ignoringDisables) false (Some indexFooTwice) in
  ignoreDisables (default emptyConfig (config (stylelint result))) = true
  /\ passesFixGuards problem result = true
  /\ emitted result (ReportMjs.report problem result 0%nat)
     = emitted (withoutDisabledRanges result)
         (ReportMjs.report problem (withoutDisabledRanges result) 0%nat).
Proof.
  cbn zeta. split; [reflexivity|]. split; [reflexivity|].
  exact (proj1 (proj2
           (report_ignoreDisables_ignores_index (problemAt "foo" (Some 3))
              (session (Some ignoringDisables) false (Some indexFooTwice)) 0%nat
              eq_refl eq_refl))).
Defined.

Lemma report_without_ranges_witness :
  let problem := problemAt "foo" (Some 3) in
  let result := session None false (Some indexAllAndFoo) in
  let o := ReportMjs.report problem result 0%nat in
  indexAllAndFoo !! "foo" = Some []
  /\ returned o = true
  /\ emitted result o = [diagnosticOf problem (stylelint result)]
  /\ logged result o = [].
Proof.
  cbn zeta. split; [reflexivity|].
  apply (report_without_ranges (problemAt "foo" (Some 3))
           (session None false (Some indexAllAndFoo)) 0%nat 3 eq_refl eq_refl eq_refl).
  right. exists indexAllAndFoo. split; [reflexivity|]. left. reflexivity.
Defined.


Lemma printfLike_without_percent_witness :
  hasChar "%" "Unexpected unit" = false
  /\ buildWarningMessage (MsgString "Unexpected unit") (Some [AStr "$&"; AStr "%s"])
     = "Unexpected unit"%string.
Proof.
  split; [reflexivity|].
  exact (printfLike_without_percent "Unexpected unit" (Some [AStr "$&"; AStr "%s"]) eq_refl).
Defined.

Lemma printfLike_fills_one_each_witness :
  formatOk "Expected %s but found %d, then %s" = true
  /\ forallb cleanArg [AStr "a"; ANum 12] = true
  /\ countPlaceholders (printfLike "Expected %s but found %d, then %s" [AStr "a"; ANum 12])
     = (countPlaceholders "Expected %s but found %d, then %s" - 2)%nat.
Proof.
  split; [reflexivity|]. split; [reflexivity|].
  exact (proj1 (printfLike_fills_one_each "Expected %s but found %d, then %s"
                  [AStr "a"; ANum 12] [] eq_refl eq_refl)).
Defined.

Lemma addFixerData_accumulates_witness :
  let first := {| fd_range := rangeAtLine 3; fixed := false |} in
  let second := {| fd_range := rangeAtLine 8; fixed := true |} in
  let result := session None false None in
  fixersData (stylelint (FixMjs.addFixerData (FixMjs.addFixerData result "foo" first)
                           "foo" second)) !! "foo"
  = Some [first; second].
Proof.
  cbn zeta.
  exact (proj1 (addFixerData_accumulates (session None false None) "foo"
                  [{| fd_range := rangeAtLine 3; fixed := false |};
                   {| fd_range := rangeAtLine 8; fixed := true |}])
           ltac:(discriminate)).
Defined.

Lemma applyFix_versions_agree_witness :
  let result := session None false (Some indexFooRepeats) in
  (exists r', r' ∈ [range_1_5; range_2_9] /\ cb r' = cb range_1_5)
  /\ FixMjs.applyFix S result "foo" (rangeAtLine 3) 0%nat
     = ReportMjs.applyFix S result "foo" (rangeAtLine 3) 0%nat.
Proof.
  cbn zeta.
  assert (Hcopy : exists r', r' ∈ [range_1_5; range_2_9] /\ cb r' = cb range_1_5).
  { exists range_1_5. split; [apply list_elem_of_here | reflexivity]. }
  split; [exact Hcopy|].
  apply (applyFix_versions_agree S (session None false (Some indexFooRepeats)) "foo"
           (rangeAtLine 3) 0%nat).
  intros dr listed r [= <-] Hlisted Hr.
  change (indexFooRepeats !! "foo") with (Some [range_1_5; range_2_9]) in Hlisted.
  injection Hlisted as <-.
  change (default [] (indexFooRepeats !! RULE_NAME_ALL)) with [range_1_5] in Hr.
  apply list_elem_of_singleton in Hr as ->. exact Hcopy.
Defined.

Lemma line_tests_agree_witness :
  end_ range_1_5 <> Some 0
  /\ FixMjs.isInRange (rangeAtLine 3) (cb range_1_5) = covers 3 range_1_5
  /\ ReportMjs.rangeMatches "foo" 3 range_1_5 = covers 3 range_1_5.
Proof.
  assert (Hend : end_ range_1_5 <> Some 0) by discriminate.
  split; [exact Hend|]. split.
  - exact (proj1 (proj1 (line_tests_agree (rangeAtLine 3) range_1_5) Hend)).
  - exact (proj1 (proj2 (line_tests_agree (rangeAtLine 3) range_1_5)) "foo"
             (or_introl eq_refl)).
Defined.

Lemma applyFix_frame_witness :
  let result := session None false (Some indexAllAndFoo) in
  let o := FixMjs.applyFix S result "foo" (rangeAtLine 3) 0%nat in
  is_Some (disabledRanges (stylelint result))
  /\ returned o = true
  /\ messages (finalState o).1 = messages result.
Proof.
  cbn zeta.
  assert (Hsome : is_Some (disabledRanges (stylelint (session None false (Some indexAllAndFoo)))))
    by (eexists; reflexivity).
  split; [exact Hsome|].
  destruct (proj1 (proj1 (applyFix_frame S (session None false (Some indexAllAndFoo)) "foo"
                            (rangeAtLine 3) 0%nat) Hsome))
    as (Hr & _ & _ & Hm & _).
  split; [exact Hr | exact Hm].
Defined.

Lemma applyFixes_without_offsets_witness :
  ApplyFixes.disabledRanges passIgnoring = Some indexAllAndFooLocs
  /\ optIgnoreDisables (ApplyFixes.config passIgnoring) = true
  /\ ApplyFixes.applyFixes passIgnoring storeAll 0%nat = Return (storeAll, 1%nat).
Proof.
  split; [reflexivity|]. split; [reflexivity|].
  exact (applyFixes_without_offsets passIgnoring storeAll 0%nat indexAllAndFooLocs
           eq_refl (or_introl eq_refl)).
Defined.

Lemma applyFixes_keeps_store_shape_witness :
  let h' := (finalState (ApplyFixes.applyFixes passFooOverBar (storeBar ++ storeAll) 0%nat)).1 in
  (1%nat ∉ indexed {[ "bar" := [0%nat] ]})
  /\ length h' = 2%nat
  /\ h' !! 1%nat = Some range_1_5.
Proof.
  cbn zeta.
  assert (Hout : 1%nat ∉ indexed {[ "bar" := [0%nat] ]}).
  { change (indexed _) with [0%nat]. intros H. apply list_elem_of_singleton in H.
    discriminate. }
  split; [exact Hout|].
  destruct (applyFixes_keeps_store_shape passFooOverBar (storeBar ++ storeAll) 0%nat)
    as (Hlen & _ & Hkept).
  cbn zeta in Hlen, Hkept. split; [exact Hlen|].
  exact (Hkept _ 1%nat eq_refl Hout).
Defined.

Lemma offsetDisabledRanges_compose_witness :
  NoDup (indexed indexThree)
  /\ ApplyFixes.offsetDisabledRanges indexThree 10 (- 2)
       (ApplyFixes.offsetDisabledRanges indexThree 10 2 storeThree)
     = storeThree.
Proof.
  assert (Hnd : NoDup (indexed indexThree)).
  { change (indexed indexThree) with [0%nat; 1%nat; 2%nat].
    repeat constructor; intros H; repeat (apply elem_of_cons in H as [H|H]; [discriminate|]);
      inversion H. }
  split; [exact Hnd|].
  exact (proj2 (offsetDisabledRanges_compose indexThree 10 2 0 storeThree Hnd
                  ltac:(lia) ltac:(lia))).
Defined.

Lemma offsetRange_keeps_order_witness :
  0 <= 2 /\ 0 <= 10
  /\ exists e', end_ (ApplyFixes.offsetRange 10 2 {| start := 5; end_ := Some 15; rules := None |})
                = Some e'
                /\ start (ApplyFixes.offsetRange 10 2
                            {| start := 5; end_ := Some 15; rules := None |}) <= e'.
Proof.
  assert (H1 : 0 <= 2) by lia. assert (H2 : 0 <= 10) by lia.
  split; [exact H1|]. split; [exact H2|].
  apply (proj1 (offsetRange_keeps_order 10 2 H1 H2)
           {| start := 5; end_ := Some 15; rules := None |} 15 eq_refl).
  cbn. lia.
Defined.

Lemma report_independent_witness :
  let problem := problemAt "foo" (Some 8) in
  let result := session None false (Some indexAllAndFoo) in
  let after := (finalState (ReportMjs.report (problemAt "bar" (Some 3)) result 0%nat)).1 in
  emitted after (ReportMjs.report problem after 0%nat)
  = emitted result (ReportMjs.report problem result 0%nat).
Proof.
  cbn zeta.
  exact (proj1 (proj2 (proj2
           (report_independent (problemAt "foo" (Some 8)) (problemAt "bar" (Some 3))
              (session None false (Some indexAllAndFoo))
              (session None false (Some indexAllAndFoo)) 0%nat 0%nat 0%nat)))).
Defined.
